(** * Burrito Shack analytics: the aggregation and insight core

    A shallow embedding of the data-shaping code of the dashboard
    ([rowsFiltered], [derive], [monthKey], [addMonths], [buildInsights],
    [DeltaCard], [InsightsPanel]) together with the few [d3-array] and
    JavaScript primitives it relies on ([d3.sum], [d3.group], [d3.rollups],
    [d3.descending], [Array.prototype.sort], [Array.prototype.find]).

    Modelling conventions.
    - A JavaScript number is a [num]: an exact rational, an infinity or NaN.
      Arithmetic is exact on rationals (binary rounding and overflow are not
      modelled); division by zero, [Infinity - Infinity] and NaN propagate as
      in JavaScript, so the guards [d ? n / d : 0] of the source keep their
      meaning.  Statements over this model are kept to what does not depend
      on exactness: sums are compared with sums taken in the same order.
    - Module [IEEE] embeds [derive] a second time over binary64 numbers,
      with the rounding and overflow of the JavaScript operators; it decides
      what depends on them.
    - A [Date] is represented by its local calendar fields (year, month
      0..11, day of month) and the milliseconds elapsed since local
      midnight.  At a fixed offset to UTC the numeric value [+d] of a date
      is in bijection with these fields and ordered like them, hence map
      keys [+d] are modelled by the date itself, and [a <= b], [a - b] on
      dates by the lexicographic comparison of the four fields.  A record
      parsed at UTC midnight and a bound picked at local midnight of the
      same calendar day differ in the last field.
    - A property read on [undefined] raises [TypeError]; functions that
      contain such reads return a [result].
    - Strings produced by [d3.format] and [d3.timeFormat] are represented by
      the values interpolated into them. *)

From Stdlib Require Import List String ZArith QArith Qcanon Bool Lia Permutation Sorted.
From Stdlib Require Import PrimFloat.
Import ListNotations.

Local Open Scope Z_scope.

(** ** JavaScript numbers *)

Module JS.

Inductive num : Type :=
| Fin (q : Qc)
| Inf (negative : bool)
| NaN.

Definition zero : num := Fin 0%Qc.
Definition one : num := Fin 1%Qc.

Definition of_Z (z : Z) : num := Fin (Q2Qc (inject_Z z)).

Definition is_zero (q : Qc) : bool := Qeq_bool q 0.
Definition is_neg (q : Qc) : bool :=
  match (q ?= 0)%Qc with Lt => true | _ => false end.

(** ToBoolean on numbers: [0] and [NaN] are falsy. *)
Definition truthy (n : num) : bool :=
  match n with
  | Fin q => negb (is_zero q)
  | Inf _ => true
  | NaN => false
  end.

Definition add (a b : num) : num :=
  match a, b with
  | NaN, _ | _, NaN => NaN
  | Fin x, Fin y => Fin (x + y)%Qc
  | Inf s, Fin _ => Inf s
  | Fin _, Inf s => Inf s
  | Inf s, Inf t => if Bool.eqb s t then Inf s else NaN
  end.

Definition neg (a : num) : num :=
  match a with
  | Fin x => Fin (- x)%Qc
  | Inf s => Inf (negb s)
  | NaN => NaN
  end.

Definition sub (a b : num) : num := add a (neg b).

Definition div (a b : num) : num :=
  match a, b with
  | NaN, _ | _, NaN => NaN
  | Fin x, Fin y =>
      if is_zero y then (if is_zero x then NaN else Inf (is_neg x))
      else Fin (x / y)%Qc
  | Fin _, Inf _ => zero
  | Inf s, Fin y => Inf (xorb s (is_neg y))
  | Inf _, Inf _ => NaN
  end.

Definition abs (a : num) : num :=
  match a with
  | Fin x => Fin (if is_neg x then - x else x)%Qc
  | Inf _ => Inf false
  | NaN => NaN
  end.

(** [a < b]; every comparison with NaN is false. *)
Definition lt (a b : num) : bool :=
  match a, b with
  | NaN, _ | _, NaN => false
  | Fin x, Fin y => match (x ?= y)%Qc with Lt => true | _ => false end
  | Inf s, Fin _ => s
  | Fin _, Inf t => negb t
  | Inf s, Inf t => s && negb t
  end.

Definition gt (a b : num) : bool := lt b a.

(** [a >= b]. *)
Definition ge (a b : num) : bool :=
  match a, b with
  | NaN, _ | _, NaN => false
  | _, _ => negb (lt a b)
  end.

(** [a || b] on numbers. *)
Definition or_else (a b : num) : num := if truthy a then a else b.

(** Reading a numeric property of a value that may be [undefined]. *)
Definition truthy_u (o : option num) : bool :=
  match o with Some n => truthy n | None => false end.

(** ToNumber: [undefined] becomes NaN. *)
Definition to_num (o : option num) : num :=
  match o with Some n => n | None => NaN end.

Definition is_finite (n : num) : Prop := exists q, n = Fin q.

(** The result of an expression that may throw. *)
Inductive result (A : Type) : Type :=
| Ok (a : A)
| TypeError.
Arguments Ok {A} a.
Arguments TypeError {A}.

Definition bind {A B} (r : result A) (k : A -> result B) : result B :=
  match r with Ok a => k a | TypeError => TypeError end.

(** [o.f] where [o] may be [undefined]. *)
Definition prop {A B} (o : option A) (f : A -> B) : result B :=
  match o with Some a => Ok (f a) | None => TypeError end.

Fixpoint mapM {A B} (f : A -> result B) (l : list A) : result (list B) :=
  match l with
  | [] => Ok []
  | x :: l' => bind (f x) (fun y => bind (mapM f l') (fun ys => Ok (y :: ys)))
  end.

(** [l[i]] for an arbitrary integer index. *)
Definition index {A} (l : list A) (i : Z) : option A :=
  if i <? 0 then None else nth_error l (Z.to_nat i).

(** [Array.prototype.sort(cmp)]: a stable sort; [cmp a b] is the sign of the
    number the comparator returns (NaN counts as 0). *)
Fixpoint insert_sorted {A} (cmp : A -> A -> Z) (x : A) (l : list A) : list A :=
  match l with
  | [] => [x]
  | y :: l' => if cmp x y >? 0 then y :: insert_sorted cmp x l' else x :: y :: l'
  end.

Definition sort {A} (cmp : A -> A -> Z) (l : list A) : list A :=
  fold_right (insert_sorted cmp) [] l.

End JS.

Notation "x <- r ;; k" := (JS.bind r (fun x => k))
  (at level 61, r at next level, right associativity).

(** ** Dates *)

(** [msOfDay] is the time of day in milliseconds,
    [((getHours() * 60 + getMinutes()) * 60 + getSeconds()) * 1000
     + getMilliseconds()]. *)
Record Date : Type := mkDateTime {
  getFullYear : Z;
  getMonth : Z;
  getDate : Z;
  msOfDay : Z
}.

(** A date at local midnight. *)
Abbreviation mkDate y m d := (mkDateTime y m d 0).

(** [+a === +b]. *)
Definition date_eqb (a b : Date) : bool :=
  (getFullYear a =? getFullYear b) && (getMonth a =? getMonth b)
  && (getDate a =? getDate b) && (msOfDay a =? msOfDay b).

(** The order of the numeric values [+a] and [+b]. *)
Definition date_compare (a b : Date) : comparison :=
  match getFullYear a ?= getFullYear b with
  | Eq => match getMonth a ?= getMonth b with
          | Eq => match getDate a ?= getDate b with
                  | Eq => msOfDay a ?= msOfDay b
                  | c => c
                  end
          | c => c
          end
  | c => c
  end.

(** [a <= b] on dates, as JavaScript compares their numeric values. *)
Definition date_leb (a b : Date) : bool :=
  match date_compare a b with Gt => false | _ => true end.

(** Sign of [a - b]. *)
Definition date_minus (a b : Date) : Z :=
  match date_compare a b with Lt => -1 | Eq => 0 | Gt => 1 end.

Definition is_leap (y : Z) : bool :=
  ((y mod 4 =? 0) && negb (y mod 100 =? 0)) || (y mod 400 =? 0).

Definition days_in_month (y m : Z) : Z :=
  match m with
  | 1 => if is_leap y then 29 else 28
  | 3 | 5 | 8 | 10 => 30
  | _ => 31
  end.

(** [new Date(y, m, 1)]: years 0..99 denote 1900..1999 and a month outside
    0..11 carries into the year. *)
Definition newDate (y m : Z) : Date :=
  let y' := if (0 <=? y) && (y <=? 99) then 1900 + y else y in
  mkDate (y' + m / 12) (m mod 12) 1.

(** [dt.setMonth(m)]: the day of month and the time of day are kept; the
    day overflows into the next month when the target month is shorter. *)
Definition setMonth (dt : Date) (m : Z) : Date :=
  let y := getFullYear dt + m / 12 in
  let mo := m mod 12 in
  let d := getDate dt in
  if d >? days_in_month y mo
  then (if mo =? 11 then mkDateTime (y + 1) 0 (d - days_in_month y mo) (msOfDay dt)
        else mkDateTime y (mo + 1) (d - days_in_month y mo) (msOfDay dt))
  else mkDateTime y mo d (msOfDay dt).

Definition monthKey (d : Date) : Date := newDate (getFullYear d) (getMonth d).

Definition addMonths (d : Date) (n : Z) : Date :=
  let dt := setMonth d (getMonth d + n) in
  newDate (getFullYear dt) (getMonth dt).

(** ** Records of the dataset *)

Record Row : Type := mkRow {
  date : Date;
  location_id : string;
  city : string;
  state : string;
  region : string;
  sessions : JS.num;
  page_views : JS.num;
  bounce_rate : JS.num;
  conversion_rate : JS.num;
  online_orders : JS.num;
  avg_order_value : JS.num;
  revenue : JS.num;
  ad_spend_social : JS.num;
  ad_spend_search : JS.num;
  ad_spend_display : JS.num;
  impressions_social : JS.num;
  impressions_search : JS.num;
  impressions_display : JS.num;
  clicks_social : JS.num;
  clicks_search : JS.num;
  clicks_display : JS.num
}.

(** The template literal [`${d.city}, ${d.state}`]. *)
Definition market_key (d : Row) : string := (city d ++ ", " ++ state d)%string.

(** ** The d3-array primitives used by the source *)

Module d3.

(** [d3.sum(values, valueof)] adds the values that are truthy numbers. *)
Definition sum {A} (values : list A) (valueof : A -> JS.num) : JS.num :=
  fold_left
    (fun s d => let value := valueof d in
                if JS.truthy value then JS.add s value else s)
    values JS.zero.

Section Grouping.
Context {A K : Type} (eqb : K -> K -> bool).

(** One step of the loop of [d3.group]: push onto the group of the key,
    or open a new group at the end of the map. *)
Fixpoint group_push (k : K) (d : A) (m : list (K * list A)) : list (K * list A) :=
  match m with
  | [] => [(k, [d])]
  | (k', v) :: m' =>
      if eqb k' k then (k', v ++ [d]) :: m' else (k', v) :: group_push k d m'
  end.

Definition group (values : list A) (key : A -> K) : list (K * list A) :=
  fold_left (fun m d => group_push (key d) d m) values [].

Definition rollups {R} (values : list A) (reduce : list A -> R) (key : A -> K)
  : list (K * R) :=
  map (fun kv => (fst kv, reduce (snd kv))) (group values key).
End Grouping.

(** Sign of [d3.descending(a, b)]. *)
Definition descending (a b : JS.num) : Z :=
  if JS.lt b a then -1 else if JS.gt b a then 1 else 0.

End d3.

(** ** Shared expressions of the source *)

(** [channelFocus === ch]. *)
Definition focus_is (channelFocus : option string) (ch : string) : bool :=
  match channelFocus with
  | Some c => String.eqb c ch
  | None => false
  end.

(** The spend selection written out in [derive] (twice) and in
    [buildInsights]. *)
Definition focus_spend (channelFocus : option string)
    (spend_social spend_search spend_display : JS.num) : JS.num :=
  if focus_is channelFocus "social" then spend_social
  else if focus_is channelFocus "search" then spend_search
  else if focus_is channelFocus "display" then spend_display
  else JS.add (JS.add spend_social spend_search) spend_display.

(** [d ? n / d : 0]. *)
Definition ratio (n d : JS.num) : JS.num :=
  if JS.truthy d then JS.div n d else JS.zero.

(** [prev ? (curr - prev) / prev : (curr ? 1 : 0)]. *)
Definition delta (curr prev : JS.num) : JS.num :=
  if JS.truthy prev then JS.div (JS.sub curr prev) prev
  else if JS.truthy curr then JS.one else JS.zero.

(** The same expression on properties that may be [undefined]. *)
Definition delta_u (curr prev : option JS.num) : JS.num :=
  if JS.truthy_u prev
  then JS.div (JS.sub (JS.to_num curr) (JS.to_num prev)) (JS.to_num prev)
  else if JS.truthy_u curr then JS.one else JS.zero.

(** ** Global filtering *)

Record FilterState : Type := mkFilterState {
  startDate : option Date;
  endDate : option Date;
  selectedMarket : string;
  selectedChannel : string
}.

Definition rowsFiltered (rows : list Row) (st : FilterState) : list Row :=
  filter
    (fun r =>
       let inDate :=
         (match startDate st with None => true | Some s => date_leb s (date r) end)
         && (match endDate st with None => true | Some e => date_leb (date r) e end) in
       let inMarket :=
         if String.eqb (selectedMarket st) "All" then true
         else String.eqb (market_key r) (selectedMarket st) in
       inDate && inMarket)
    rows.

Definition channelFocus (st : FilterState) : option string :=
  if String.eqb (selectedChannel st) "All" then None else Some (selectedChannel st).

(** ** [derive] *)

Module DateAgg.
Record t : Type := mk { revenue : JS.num; spend : JS.num; orders : JS.num; roas : JS.num }.
End DateAgg.

Module DatePoint.
Record t : Type := mk { date : Date; revenue : JS.num; roas : JS.num; orders : JS.num }.
End DatePoint.

(** A value read from a property of an object. *)
Inductive value : Type :=
| Number (n : JS.num)
| DateObject (d : Date)
| Undefined.

(** [e[name]] on an entry of [byDate]: the object literal built by the
    [.map] callback has the properties [date], [revenue], [roas] and
    [orders]. *)
Definition DatePoint_get (e : DatePoint.t) (name : string) : value :=
  if String.eqb name "date" then DateObject (DatePoint.date e)
  else if String.eqb name "revenue" then Number (DatePoint.revenue e)
  else if String.eqb name "roas" then Number (DatePoint.roas e)
  else if String.eqb name "orders" then Number (DatePoint.orders e)
  else Undefined.

Module Channel.
Record t : Type := mk { spend : JS.num; clicks : JS.num; impressions : JS.num }.
End Channel.

Module ChannelEntry.
Record t : Type := mk {
  channel : string;
  spend : JS.num;
  clicks : JS.num;
  impressions : JS.num;
  cpc : JS.num;
  ctr : JS.num;
  roas : JS.num
}.
End ChannelEntry.

Module MarketGroup.
Record t : Type := mk {
  market : string;
  city : string;
  state : string;
  revenue : JS.num;
  orders : JS.num;
  sessions : JS.num;
  spend : JS.num
}.
End MarketGroup.

Module MarketEntry.
Record t : Type := mk {
  market : string;
  city : string;
  state : string;
  revenue : JS.num;
  orders : JS.num;
  sessions : JS.num;
  spend : JS.num;
  roas : JS.num;
  cvr : JS.num
}.
End MarketEntry.

Module Metrics.
Record t : Type := mk {
  totalRevenue : JS.num;
  totalOrders : JS.num;
  totalSessions : JS.num;
  aov : JS.num;
  cvr : JS.num;
  roas : JS.num;
  byDate : list DatePoint.t;
  channelArr : list ChannelEntry.t;
  byMarket : list MarketEntry.t
}.
End Metrics.

(** [const sum = (arr, key) => d3.sum(arr, (d) => d[key] || 0)]. *)
Definition sum (arr : list Row) (key : Row -> JS.num) : JS.num :=
  d3.sum arr (fun d => JS.or_else (key d) JS.zero).

(** The reducer of the per-date rollup. *)
Definition byDate_reduce (channelFocus : option string) (v : list Row) : DateAgg.t :=
  let revenue := d3.sum v revenue in
  let spend_social := d3.sum v ad_spend_social in
  let spend_search := d3.sum v ad_spend_search in
  let spend_display := d3.sum v ad_spend_display in
  let spend := focus_spend channelFocus spend_social spend_search spend_display in
  let orders := d3.sum v online_orders in
  let roas := ratio revenue spend in
  DateAgg.mk revenue spend orders roas.

Definition byDate_rollups (rows : list Row) (channelFocus : option string)
  : list (Date * DateAgg.t) :=
  d3.rollups date_eqb rows (byDate_reduce channelFocus) date.

Definition derive_byDate (rows : list Row) (channelFocus : option string)
  : list DatePoint.t :=
  JS.sort (fun a b => date_minus (DatePoint.date a) (DatePoint.date b))
    (map (fun kv =>
            DatePoint.mk (fst kv) (DateAgg.revenue (snd kv))
              (DateAgg.roas (snd kv)) (DateAgg.orders (snd kv)))
         (byDate_rollups rows channelFocus)).

(** The object [channel], in property order. *)
Definition derive_channel (rows : list Row) : list (string * Channel.t) :=
  [ ("social"%string,
     Channel.mk (sum rows ad_spend_social) (sum rows clicks_social)
       (sum rows impressions_social));
    ("search"%string,
     Channel.mk (sum rows ad_spend_search) (sum rows clicks_search)
       (sum rows impressions_search));
    ("display"%string,
     Channel.mk (sum rows ad_spend_display) (sum rows clicks_display)
       (sum rows impressions_display)) ].

Definition derive_channelArr (rows : list Row) (totalRevenue : JS.num)
  : list ChannelEntry.t :=
  map (fun kv =>
         let k := fst kv in
         let v := snd kv in
         ChannelEntry.mk k (Channel.spend v) (Channel.clicks v) (Channel.impressions v)
           (ratio (Channel.spend v) (Channel.clicks v))
           (ratio (Channel.clicks v) (Channel.impressions v))
           (ratio totalRevenue (Channel.spend v)))
      (derive_channel rows).

(** The callback of [Array.from(d3.group(...), ...)]; [v[0].city] throws when
    the group is empty. *)
Definition market_of_group (channelFocus : option string) (kv : string * list Row)
  : JS.result MarketGroup.t :=
  let k := fst kv in
  let v := snd kv in
  let spend_social := sum v ad_spend_social in
  let spend_search := sum v ad_spend_search in
  let spend_display := sum v ad_spend_display in
  let spend := focus_spend channelFocus spend_social spend_search spend_display in
  let revenue := sum v revenue in
  let orders := sum v online_orders in
  let sessions := sum v sessions in
  c <- JS.prop (JS.index v 0) city ;;
  s <- JS.prop (JS.index v 0) state ;;
  JS.Ok (MarketGroup.mk k c s revenue orders sessions spend).

(** [(r) => ({ ...r, roas: ..., cvr: ... })]. *)
Definition market_with_ratios (r : MarketGroup.t) : MarketEntry.t :=
  MarketEntry.mk (MarketGroup.market r) (MarketGroup.city r) (MarketGroup.state r)
    (MarketGroup.revenue r) (MarketGroup.orders r) (MarketGroup.sessions r)
    (MarketGroup.spend r)
    (ratio (MarketGroup.revenue r) (MarketGroup.spend r))
    (ratio (MarketGroup.orders r) (MarketGroup.sessions r)).

Definition derive_byMarket (rows : list Row) (channelFocus : option string)
  : JS.result (list MarketEntry.t) :=
  groups <- JS.mapM (market_of_group channelFocus) (d3.group String.eqb rows market_key) ;;
  JS.Ok (JS.sort (fun a b => d3.descending (MarketEntry.revenue a) (MarketEntry.revenue b))
           (map market_with_ratios groups)).

Definition derive (rows : list Row) (channelFocus : option string)
  : JS.result Metrics.t :=
  match rows with
  | [] => JS.Ok (Metrics.mk JS.zero JS.zero JS.zero JS.zero JS.zero JS.zero [] [] [])
  | _ :: _ =>
      let totalRevenue := sum rows revenue in
      let totalOrders := sum rows online_orders in
      let totalSessions := sum rows sessions in
      let aov := ratio totalRevenue totalOrders in
      let spend_total :=
        JS.add (JS.add (sum rows ad_spend_social) (sum rows ad_spend_search))
          (sum rows ad_spend_display) in
      let cvr := ratio totalOrders totalSessions in
      let roas_overall := ratio totalRevenue spend_total in
      let byDate := derive_byDate rows channelFocus in
      let channelArr := derive_channelArr rows totalRevenue in
      byMarket <- derive_byMarket rows channelFocus ;;
      JS.Ok (Metrics.mk totalRevenue totalOrders totalSessions aov cvr roas_overall
               byDate channelArr byMarket)
  end.

(** ** [buildInsights] *)

Module Stats.
Record t : Type := mk {
  revenue : JS.num;
  orders : JS.num;
  sessions : JS.num;
  spend : JS.num;
  cvr : JS.num;
  roas : JS.num
}.
End Stats.

(** A monthly bucket [{ month, ...v }]. *)
Module Bucket.
Record t : Type := mk { month : Date; v : Stats.t }.
End Bucket.

Module ChannelMonth.
Record t : Type := mk { month : Date; revenue : JS.num; roas : JS.num; cvr : JS.num }.
End ChannelMonth.

Module ChannelStat.
Record t : Type := mk { ch : string; dRoas : JS.num; dRev : JS.num; dCvr : JS.num }.
End ChannelStat.

Module MarketMonth.
Record t : Type := mk { month : Date; revenue : JS.num }.
End MarketMonth.

Module Growth.
Record t : Type := mk { market : string; g : JS.num }.
End Growth.

Module Labels.
Record t : Type := mk { currLabel : Date; prevLabel : Date; yoyLabel : Date }.
End Labels.

Module Card.
Record t : Type := mk { revenue : JS.num; orders : JS.num; roas : JS.num; cvr : JS.num }.
End Card.

(** The three narrative strings, each represented by the values its
    template interpolates. *)
Inductive BestMarketMsg : Type :=
| NotEnoughMarketData
| StrongestGrowth (market : string) (g : JS.num).

Module Narratives.
Record t : Type := mk {
  topChannel : string * JS.num;
  bestMarket : BestMarketMsg;
  watchMetric : Date * Date * JS.num
}.
End Narratives.

Module Insights.
Record t : Type := mk {
  labels : Labels.t;
  curr : Card.t;
  prev : Card.t;
  yoy : Card.t;
  narratives : Narratives.t
}.
End Insights.

Definition monthly_reduce (channelFocus : option string) (v : list Row) : Stats.t :=
  let revenue := d3.sum v revenue in
  let orders := d3.sum v online_orders in
  let sessions := d3.sum v sessions in
  let spendS := d3.sum v ad_spend_social in
  let spendSe := d3.sum v ad_spend_search in
  let spendD := d3.sum v ad_spend_display in
  let spend := focus_spend channelFocus spendS spendSe spendD in
  let cvr := ratio orders sessions in
  let roas := ratio revenue spend in
  Stats.mk revenue orders sessions spend cvr roas.

Definition monthly (rows : list Row) (channelFocus : option string) : list Bucket.t :=
  JS.sort (fun a b => date_minus (Bucket.month a) (Bucket.month b))
    (map (fun kv => Bucket.mk (fst kv) (snd kv))
       (d3.rollups date_eqb rows (monthly_reduce channelFocus)
          (fun d => monthKey (date d)))).

Definition zero_stats : Stats.t :=
  Stats.mk JS.zero JS.zero JS.zero JS.zero JS.zero JS.zero.

(** [monthly.find(m => +m.month === yoyMonthKey) || { revenue: 0, ... }]. *)
Definition yoy_of (monthly : list Bucket.t) (yoyMonthKey : Date) : Stats.t :=
  match find (fun m => date_eqb (Bucket.month m) yoyMonthKey) monthly with
  | Some m => Bucket.v m
  | None => zero_stats
  end.

Definition channel_series (rows : list Row) (ch : string) : list ChannelMonth.t :=
  JS.sort (fun a b => date_minus (ChannelMonth.month a) (ChannelMonth.month b))
    (map (fun kv => ChannelMonth.mk (fst kv) (fst (fst (snd kv)))
                      (snd (fst (snd kv))) (snd (snd kv)))
       (d3.rollups date_eqb rows
          (fun v =>
             let rev := d3.sum v revenue in
             let sS := d3.sum v ad_spend_social in
             let sSe := d3.sum v ad_spend_search in
             let sD := d3.sum v ad_spend_display in
             let spend :=
               if String.eqb ch "social" then sS
               else if String.eqb ch "search" then sSe else sD in
             let orders := d3.sum v online_orders in
             let sessions := d3.sum v sessions in
             let cvr := ratio orders sessions in
             let roas := ratio rev spend in
             (rev, roas, cvr))
          (fun d => monthKey (date d)))).

Definition channel_stat (rows : list Row) (ch : string) : ChannelStat.t :=
  let series := channel_series rows ch in
  let c := JS.index series (Z.of_nat (List.length series) - 1) in
  let p := JS.index series (Z.of_nat (List.length series) - 2) in
  let dRoas := delta_u (option_map ChannelMonth.roas c) (option_map ChannelMonth.roas p) in
  let dRev := delta_u (option_map ChannelMonth.revenue c) (option_map ChannelMonth.revenue p) in
  let dCvr := delta_u (option_map ChannelMonth.cvr c) (option_map ChannelMonth.cvr p) in
  ChannelStat.mk ch dRoas dRev dCvr.

Definition channels : list string := ["social"; "search"; "display"]%string.

Definition channelStats (rows : list Row) : list ChannelStat.t :=
  map (channel_stat rows) channels.

(** [channelStats.reduce((a, b) => ..., channelStats[0])]; on an empty array
    the initial value [channelStats[0]] is [undefined] and is returned. *)
Definition topRoas (stats : list ChannelStat.t) : option ChannelStat.t :=
  match stats with
  | [] => None
  | init :: _ =>
      Some (fold_left
              (fun a b =>
                 if JS.gt (JS.abs (ChannelStat.dRoas b)) (JS.abs (ChannelStat.dRoas a))
                 then b else a)
              stats init)
  end.

(** [d3.rollups(rows, reduce, marketKey, monthKey)]: grouped by market, then
    by month inside each market. *)
Definition marketMonthly (rows : list Row) : list (string * list (Date * JS.num)) :=
  map (fun kv =>
         (fst kv,
          d3.rollups date_eqb (snd kv) (fun v => d3.sum v revenue)
            (fun d => monthKey (date d))))
      (d3.group String.eqb rows market_key).

Definition market_growth (entry : string * list (Date * JS.num)) : Growth.t :=
  let market := fst entry in
  let arr := snd entry in
  let series :=
    JS.sort (fun a b => date_minus (MarketMonth.month a) (MarketMonth.month b))
      (map (fun kv => MarketMonth.mk (fst kv) (snd kv)) arr) in
  let c :=
    match JS.index series (Z.of_nat (List.length series) - 1) with
    | Some e => MarketMonth.revenue e
    | None => JS.zero
    end in
  let p :=
    match JS.index series (Z.of_nat (List.length series) - 2) with
    | Some e => MarketMonth.revenue e
    | None => JS.zero
    end in
  Growth.mk market (delta c p).

(** [growth.reduce((a, b) => (b.g > a.g ? b : a), growth[0])]. *)
Definition best_growth (growth : list Growth.t) : option Growth.t :=
  match growth with
  | [] => None
  | init :: _ =>
      Some (fold_left (fun a b => if JS.gt (Growth.g b) (Growth.g a) then b else a)
              growth init)
  end.

Definition bestMarketMsg (rows : list Row) : JS.result BestMarketMsg :=
  let mm := marketMonthly rows in
  match mm with
  | [] => JS.Ok NotEnoughMarketData
  | _ :: _ =>
      let best := best_growth (map market_growth mm) in
      market <- JS.prop best Growth.market ;;
      g <- JS.prop best Growth.g ;;
      JS.Ok (StrongestGrowth market g)
  end.

Definition card_of (s : Stats.t) : Card.t :=
  Card.mk (Stats.revenue s) (Stats.orders s) (Stats.roas s) (Stats.cvr s).

Definition buildInsights (rows : list Row) (channelFocus : option string)
  : JS.result (option Insights.t) :=
  match rows with
  | [] => JS.Ok None
  | _ :: _ =>
      let monthly := monthly rows channelFocus in
      if (List.length monthly <? 2)%nat then JS.Ok None
      else
        let curr := JS.index monthly (Z.of_nat (List.length monthly) - 1) in
        let prev := JS.index monthly (Z.of_nat (List.length monthly) - 2) in
        curr_month <- JS.prop curr Bucket.month ;;
        let yoyMonthKey := addMonths curr_month (-12) in
        let yoy := yoy_of monthly yoyMonthKey in
        let top := topRoas (channelStats rows) in
        msg <- bestMarketMsg rows ;;
        prev_month <- JS.prop prev Bucket.month ;;
        let labels := Labels.mk curr_month prev_month (addMonths curr_month (-12)) in
        curr_v <- JS.prop curr Bucket.v ;;
        prev_v <- JS.prop prev Bucket.v ;;
        top_ch <- JS.prop top ChannelStat.ch ;;
        top_dRoas <- JS.prop top ChannelStat.dRoas ;;
        JS.Ok (Some
          (Insights.mk labels (card_of curr_v) (card_of prev_v) (card_of yoy)
             (Narratives.mk (top_ch, top_dRoas) msg
                (Labels.currLabel labels, Labels.prevLabel labels,
                 JS.div (JS.sub (Stats.cvr curr_v) (Stats.cvr prev_v))
                   (JS.or_else (Stats.cvr prev_v) JS.one)))))
  end.

(** ** The insight cards *)

Module DeltaCard.
Record t : Type := mk {
  label : string;
  curr : JS.num;
  prev : JS.num;
  pct : JS.num;
  up : bool;
  shown : JS.num
}.
End DeltaCard.

(** [DeltaCard]: the badge shows the arrow for [up] and [Math.abs(pct)]
    formatted as a percentage. *)
Definition DeltaCard (label : string) (curr prev : JS.num) : DeltaCard.t :=
  let pct := delta curr prev in
  let up := JS.ge pct JS.zero in
  DeltaCard.mk label curr prev pct up (JS.abs pct).

Inductive InsightsView : Type :=
| EmptyChart (note : string)
| InsightPanels (mom yoy : list DeltaCard.t) (auto : Narratives.t).

(** The four cards of a panel, comparing [i.curr] with [other]. *)
Definition delta_cards (curr other : Card.t) : list DeltaCard.t :=
  [ DeltaCard "Revenue" (Card.revenue curr) (Card.revenue other);
    DeltaCard "Orders" (Card.orders curr) (Card.orders other);
    DeltaCard "ROAS" (Card.roas curr) (Card.roas other);
    DeltaCard "CVR" (Card.cvr curr) (Card.cvr other) ].

Definition InsightsPanel (rows : list Row) (channelFocus : option string)
  : JS.result InsightsView :=
  i <- buildInsights rows channelFocus ;;
  match i with
  | None => JS.Ok (EmptyChart "Not enough data for insights")
  | Some i =>
      JS.Ok (InsightPanels
               (delta_cards (Insights.curr i) (Insights.prev i))
               (delta_cards (Insights.curr i) (Insights.yoy i))
               (Insights.narratives i))
  end.

(** [metrics] and the insight view of the application, from the raw rows
    and the filter selection. *)
Definition metrics (rows : list Row) (st : FilterState) : JS.result Metrics.t :=
  derive (rowsFiltered rows st) (channelFocus st).

Definition insights (rows : list Row) (st : FilterState) : JS.result InsightsView :=
  InsightsPanel (rowsFiltered rows st) (channelFocus st).

(** ** Vocabulary of the statements *)

(** The plain left-to-right sum of a list of numbers. *)
Definition total (l : list JS.num) : JS.num := fold_left JS.add l JS.zero.

(** The sum of one raw column over a list of records. *)
Definition column_sum (key : Row -> JS.num) (rows : list Row) : JS.num :=
  total (map key rows).

(** A calendar date as the dataset has them: a four-digit style year (the
    two-digit years 0..99, which [new Date(y, m, d)] reads as 19yy, are
    excluded, as is year 100 whose previous year is one of them), a month
    in 0..11 and an existing day of that month. *)
Definition wf_date (d : Date) : Prop :=
  (getFullYear d < 0 \/ 100 < getFullYear d)
  /\ 0 <= getMonth d <= 11
  /\ 1 <= getDate d <= days_in_month (getFullYear d) (getMonth d).

(** A validated record: the numeric fields read by the core are finite
    numbers. *)
Definition finite_row (r : Row) : Prop :=
  JS.is_finite (sessions r) /\ JS.is_finite (online_orders r)
  /\ JS.is_finite (revenue r)
  /\ JS.is_finite (ad_spend_social r) /\ JS.is_finite (ad_spend_search r)
  /\ JS.is_finite (ad_spend_display r)
  /\ JS.is_finite (impressions_social r) /\ JS.is_finite (impressions_search r)
  /\ JS.is_finite (impressions_display r)
  /\ JS.is_finite (clicks_social r) /\ JS.is_finite (clicks_search r)
  /\ JS.is_finite (clicks_display r).

(** Strictly earlier in time. *)
Definition date_lt (a b : Date) : Prop :=
  getFullYear a < getFullYear b
  \/ (getFullYear a = getFullYear b
      /\ (getMonth a < getMonth b
          \/ (getMonth a = getMonth b
              /\ (getDate a < getDate b
                  \/ (getDate a = getDate b /\ msOfDay a < msOfDay b))))).

Definition date_le (a b : Date) : Prop := date_lt a b \/ a = b.

(** The records of one date value, in input order. *)
Definition on_date (d : Date) (rows : list Row) : list Row :=
  filter (fun r => date_eqb (date r) d) rows.

(** The records of one market, in input order. *)
Definition in_market (k : string) (rows : list Row) : list Row :=
  filter (fun r => String.eqb (market_key r) k) rows.

(** The records of one calendar month, in input order. *)
Definition in_month (k : Date) (rows : list Row) : list Row :=
  filter (fun r => date_eqb (monthKey (date r)) k) rows.

(** The spend of all three channels together. *)
Definition all_spend (rows : list Row) : JS.num :=
  JS.add (JS.add (column_sum ad_spend_social rows) (column_sum ad_spend_search rows))
    (column_sum ad_spend_display rows).

(** The spend of a list of records under a channel focus, as the
    specification words it: the column of the focused channel, or the three
    columns together when no channel is focused. *)
Definition spec_spend (channelFocus : option string) (rows : list Row) (spend : JS.num)
  : Prop :=
  (channelFocus = Some "social"%string -> spend = column_sum ad_spend_social rows)
  /\ (channelFocus = Some "search"%string -> spend = column_sum ad_spend_search rows)
  /\ (channelFocus = Some "display"%string -> spend = column_sum ad_spend_display rows)
  /\ (channelFocus = None -> spend = all_spend rows).

(** The zero-denominator convention, as the specification words it. *)
Definition spec_ratio (n d r : JS.num) : Prop :=
  (d = JS.zero -> r = JS.zero) /\ (d <> JS.zero -> r = JS.div n d).

(** The delta convention, as the specification words it. *)
Definition spec_delta (current previous pct : JS.num) : Prop :=
  (previous <> JS.zero -> pct = JS.div (JS.sub current previous) previous)
  /\ (previous = JS.zero -> current <> JS.zero -> pct = JS.one)
  /\ (previous = JS.zero -> current = JS.zero -> pct = JS.zero).

(** The filter contract, as the specification words it: inclusive date
    bounds, either of which may be absent, and the market sentinel or an
    exact match of the market key. *)
Definition passes (st : FilterState) (r : Row) : Prop :=
  match startDate st with None => True | Some s => date_le s (date r) end
  /\ match endDate st with None => True | Some e => date_le (date r) e end
  /\ (selectedMarket st = "All"%string
      \/ (city r ++ ", " ++ state r)%string = selectedMarket st).


(** Monthly buckets, as the specification words them: year and month. *)
Definition same_month (a b : Date) : Prop :=
  getFullYear a = getFullYear b /\ getMonth a = getMonth b.

Definition within_one_month (rows : list Row) : Prop :=
  forall r1 r2, In r1 rows -> In r2 rows -> same_month (date r1) (date r2).

Definition spans_two_months (rows : list Row) : Prop :=
  exists r1 r2, In r1 rows /\ In r2 rows /\ ~ same_month (date r1) (date r2).

Definition wf_dates (rows : list Row) : Prop :=
  Forall (fun r => wf_date (date r)) rows.

(** The zero-denominator convention together with the absence of NaN and
    infinities, in the ratio and in the two quantities it is computed from. *)
Definition guarded (n d r : JS.num) : Prop :=
  spec_ratio n d r /\ JS.is_finite n /\ JS.is_finite d /\ JS.is_finite r.

(** The zero-denominator convention of a ratio [r] of [n] over [d]: 0 over
    a zero denominator, the quotient over any other finite denominator, and
    not NaN when both [n] and [d] are finite. *)
Definition zero_convention (n d r : JS.num) : Prop :=
  (d = JS.zero -> r = JS.zero)
  /\ (JS.is_finite d -> d <> JS.zero -> r = JS.div n d)
  /\ (JS.is_finite n -> JS.is_finite d -> r <> JS.NaN).

(** The all-channel spend as [derive] adds it up. *)
Definition spend_total (rows : list Row) : JS.num :=
  JS.add (JS.add (sum rows ad_spend_social) (sum rows ad_spend_search))
    (sum rows ad_spend_display).

Definition finite_stats (s : Stats.t) : Prop :=
  JS.is_finite (Stats.revenue s) /\ JS.is_finite (Stats.orders s)
  /\ JS.is_finite (Stats.sessions s) /\ JS.is_finite (Stats.spend s)
  /\ JS.is_finite (Stats.cvr s) /\ JS.is_finite (Stats.roas s).

Definition finite_card (c : Card.t) : Prop :=
  JS.is_finite (Card.revenue c) /\ JS.is_finite (Card.orders c)
  /\ JS.is_finite (Card.roas c) /\ JS.is_finite (Card.cvr c).

(** What a delta card compares: its label, current and previous value. *)
Definition card_input (c : DeltaCard.t) : string * JS.num * JS.num :=
  (DeltaCard.label c, DeltaCard.curr c, DeltaCard.prev c).

(** The four metric pairs of a panel comparing [curr] with [other]. *)
Definition metric_pairs (curr other : Card.t) : list (string * JS.num * JS.num) :=
  [ ("Revenue"%string, Card.revenue curr, Card.revenue other);
    ("Orders"%string, Card.orders curr, Card.orders other);
    ("ROAS"%string, Card.roas curr, Card.roas other);
    ("CVR"%string, Card.cvr curr, Card.cvr other) ].

(** A card follows the delta convention, and its badge (arrow and
    magnitude) shows that delta. *)
Definition card_follows_convention (c : DeltaCard.t) : Prop :=
  spec_delta (DeltaCard.curr c) (DeltaCard.prev c) (DeltaCard.pct c)
  /\ DeltaCard.pct c
     = (if DeltaCard.up c then DeltaCard.shown c else JS.neg (DeltaCard.shown c)).

(** The four values of a payload card are those of a monthly bucket. *)
Definition card_shows (c : Card.t) (s : Stats.t) : Prop :=
  Card.revenue c = Stats.revenue s
  /\ Card.orders c = Stats.orders s
  /\ Card.roas c = Stats.roas s
  /\ Card.cvr c = Stats.cvr s.

(** The four values of a payload card are 0. *)
Definition card_all_zero (c : Card.t) : Prop :=
  Card.revenue c = JS.zero /\ Card.orders c = JS.zero
  /\ Card.roas c = JS.zero /\ Card.cvr c = JS.zero.

(** The number interpolated into the [watchMetric] narrative. *)
Definition watch_change (i : Insights.t) : JS.num :=
  snd (Narratives.watchMetric (Insights.narratives i)).

(** The distinct keys of a list, in order of first occurrence. *)
Definition first_keys {K} (eqb : K -> K -> bool) (ks : list K) : list K :=
  fold_left (fun seen k => if existsb (eqb k) seen then seen else seen ++ [k]) ks [].

(** Sample records: one market over two months, another market in the
    second month only. *)
Definition sample_row (d : Date) (c s : string)
    (rev ord ses spend_soc clicks_soc impr_soc : Z) : Row :=
  mkRow d "L1" c s "South" (JS.of_Z ses) (JS.of_Z 0) (JS.of_Z 0) (JS.of_Z 0)
    (JS.of_Z ord) (JS.of_Z 0) (JS.of_Z rev)
    (JS.of_Z spend_soc) (JS.of_Z 0) (JS.of_Z 0)
    (JS.of_Z impr_soc) (JS.of_Z 0) (JS.of_Z 0)
    (JS.of_Z clicks_soc) (JS.of_Z 0) (JS.of_Z 0).

Definition austin_jan : Row :=
  sample_row (mkDate 2024 0 1) "Austin" "TX" 1000 20 500 100 50 1000.
Definition austin_feb : Row :=
  sample_row (mkDate 2024 1 1) "Austin" "TX" 1500 25 600 150 60 1200.
Definition dallas_feb : Row :=
  sample_row (mkDate 2024 1 1) "Dallas" "TX" 700 5 0 0 0 0.
Definition austin_jan_idle : Row :=
  sample_row (mkDate 2024 0 15) "Austin" "TX" 0 0 0 0 0 0.
Definition austin_feb_2023 : Row :=
  sample_row (mkDate 2023 1 7) "Austin" "TX" 900 18 450 90 40 800.

(** A record of 1 February 2024 parsed at UTC midnight and read two hours
    east of UTC: 02:00 local time. *)
Definition austin_feb_0200 : Row :=
  sample_row (mkDateTime 2024 1 1 7200000) "Austin" "TX" 1500 25 600 150 60 1200.

Definition sample_rows : list Row := [austin_jan; austin_feb; dallas_feb].

(** Records spanning February 2023, January 2024 and February 2024. *)
Definition yoy_rows : list Row := [austin_feb_2023; austin_jan; austin_feb].

(** Records whose previous month has no sessions, hence a CVR of 0. *)
Definition idle_rows : list Row := [austin_jan_idle; austin_feb].

(** ** Further code of the application *)

Module JSMath.

(** [a * b]. *)
Definition mul (a b : JS.num) : JS.num :=
  match a, b with
  | JS.NaN, _ | _, JS.NaN => JS.NaN
  | JS.Fin x, JS.Fin y => JS.Fin (x * y)%Qc
  | JS.Inf s, JS.Fin y => if JS.is_zero y then JS.NaN else JS.Inf (xorb s (JS.is_neg y))
  | JS.Fin x, JS.Inf t => if JS.is_zero x then JS.NaN else JS.Inf (xorb (JS.is_neg x) t)
  | JS.Inf s, JS.Inf t => JS.Inf (xorb s t)
  end.

(** [Math.max(a, b)]: NaN when an argument is NaN. *)
Definition max (a b : JS.num) : JS.num :=
  match a, b with
  | JS.NaN, _ | _, JS.NaN => JS.NaN
  | _, _ => if JS.lt a b then b else a
  end.

End JSMath.

(** [a > b] and [a < b] on dates. *)
Definition date_gtb (a b : Date) : bool :=
  match date_compare a b with Gt => true | _ => false end.

Definition date_ltb (a b : Date) : bool :=
  match date_compare a b with Lt => true | _ => false end.

(** One iteration of the loop of [d3.extent]: the first value starts both
    ends, a later value replaces the minimum when [min > value] and the
    maximum when [max < value]. *)
Definition extent_step (acc : option (Date * Date)) (value : Date) : option (Date * Date) :=
  match acc with
  | None => Some (value, value)
  | Some (mn, mx) =>
      Some (if date_gtb mn value then value else mn,
            if date_ltb mx value then value else mx)
  end.

(** [d3.extent(values, valueof)] on dates; [None] stands for
    [[undefined, undefined]]. *)
Definition d3_extent {A} (values : list A) (valueof : A -> Date) : option (Date * Date) :=
  fold_left (fun acc d => extent_step acc (valueof d)) values None.

(** The effect that initialises the date range once data is loaded:
    [setStartDate((s) => s ?? minD)] and [setEndDate((e) => e ?? maxD)]. *)
Definition init_range (rows : list Row) (st : FilterState) : FilterState :=
  match rows with
  | [] => st
  | _ :: _ =>
      let ext := d3_extent rows date in
      mkFilterState
        (match startDate st with Some s => Some s | None => option_map fst ext end)
        (match endDate st with Some e => Some e | None => option_map snd ext end)
        (selectedMarket st) (selectedChannel st)
  end.

(** The click handler of the Reset button. *)
Definition reset (rows : list Row) (st : FilterState) : FilterState :=
  let ranged :=
    match rows with
    | [] => st
    | _ :: _ =>
        let ext := d3_extent rows date in
        mkFilterState (option_map fst ext) (option_map snd ext)
          (selectedMarket st) (selectedChannel st)
    end in
  mkFilterState (startDate ranged) (endDate ranged) "All" "All".

(** Sign of the default comparison of [Array.prototype.sort] on strings,
    which orders them by their character codes. *)
Definition string_cmp (a b : string) : Z :=
  match String.compare a b with Lt => -1 | Eq => 0 | Gt => 1 end.

(** [Array.from(new Set(values))]: the distinct values in insertion order. *)
Definition new_Set (values : list string) : list string :=
  fold_left (fun seen k => if existsb (String.eqb k) seen then seen else seen ++ [k])
    values [].

(** [markets]: the options of the market selector. *)
Definition markets (rows : list Row) : list string :=
  "All"%string :: JS.sort string_cmp (new_Set (map market_key rows)).

(** [channels]: the options of the channel selector. *)
Definition channel_options : list string := ["All"; "social"; "search"; "display"]%string.

(** A row of [MarketsTable], before number formatting. *)
Module MarketRow.
Record t : Type := mk {
  city : string;
  state : string;
  revenue : JS.num;
  roas : JS.num;
  conv_rate : JS.num;
  orders : JS.num;
  spend : JS.num
}.
End MarketRow.

(** [MarketsTable]: [(data || []).slice(0, 50)], one table row per entry. *)
Definition MarketsTable (data : option (list MarketEntry.t)) : list MarketRow.t :=
  let top := firstn 50 (match data with Some d => d | None => [] end) in
  map (fun r =>
         MarketRow.mk (MarketEntry.city r) (MarketEntry.state r) (MarketEntry.revenue r)
           (MarketEntry.roas r)
           (ratio (MarketEntry.orders r) (MarketEntry.sessions r))
           (MarketEntry.orders r) (MarketEntry.spend r))
      top.

(** The point shown by the tooltip of [RevenueRoasChart]:
    [data[Math.max(0, Math.min(data.length - 1, idx))]]. *)
Definition hover_point (data : list DatePoint.t) (idx : Z) : option DatePoint.t :=
  JS.index data (Z.max 0 (Z.min (Z.of_nat (List.length data) - 1) idx)).

(** ToBoolean on a string that may be [null]: [null] and the empty string are falsy. *)
Definition truthy_string (o : option string) : bool :=
  match o with
  | None => false
  | Some s => negb (String.eqb s EmptyString)
  end.

(** The fill of one bar of [ROASByChannel]:
    [dim = highlight && d.channel !== highlight]. *)
Definition bar_fill (highlight : option string) (channel : string) : string :=
  let dim :=
    truthy_string highlight
    && negb (match highlight with Some h => String.eqb channel h | None => false end) in
  if dim then "#d9e9e6"%string else "#2a9d8f"%string.

(** The bars of [ROASByChannel]: channel, height value and fill; [None] is
    the "No data" placeholder. *)
Definition ROASByChannel (data : list ChannelEntry.t) (highlight : option string)
  : option (list (string * JS.num * string)) :=
  match data with
  | [] => None
  | _ :: _ =>
      Some (map (fun d =>
                   (ChannelEntry.channel d, ChannelEntry.roas d,
                    bar_fill highlight (ChannelEntry.channel d)))
              data)
  end.



(** *** The first version of the dashboard *)

(** [weightedBounceRate]. *)
Definition weightedBounceRate (arr : list Row) : JS.num :=
  let s := sum arr sessions in
  let w :=
    d3.sum arr
      (fun d => JSMath.mul (JS.or_else (sessions d) JS.zero)
                  (JS.or_else (bounce_rate d) JS.zero)) in
  ratio w s.

Module DatePointV1.
Record t : Type := mk {
  date : Date;
  revenue : JS.num;
  spend : JS.num;
  roas : JS.num;
  orders : JS.num
}.
End DatePointV1.

Module ChannelEntryV1.
Record t : Type := mk {
  channel : string;
  spend : JS.num;
  clicks : JS.num;
  impressions : JS.num;
  cpc : JS.num;
  ctr : JS.num
}.
End ChannelEntryV1.

Module Derived.
Record t : Type := mk {
  totalRevenue : JS.num;
  totalOrders : JS.num;
  totalSessions : JS.num;
  aov : JS.num;
  cvr : JS.num;
  roas : JS.num;
  cpc : JS.num;
  br : JS.num;
  spend : JS.num;
  clicks : JS.num;
  byDate : list DatePointV1.t;
  channelArr : list ChannelEntryV1.t;
  byMarket : list MarketEntry.t
}.
End Derived.

(** The reducer of [byDateMap]: revenue, spend and orders of one date. *)
Definition derived_byDate_reduce (v : list Row) : JS.num * JS.num * JS.num :=
  (d3.sum v revenue,
   d3.sum v (fun d => JS.add (JS.add (ad_spend_social d) (ad_spend_search d))
                        (ad_spend_display d)),
   d3.sum v online_orders).

Definition derived_byDate (rows : list Row) : list DatePointV1.t :=
  JS.sort (fun a b => date_minus (DatePointV1.date a) (DatePointV1.date b))
    (map (fun kv =>
            let v := snd kv in
            DatePointV1.mk (fst kv) (fst (fst v)) (snd (fst v))
              (ratio (fst (fst v)) (snd (fst v))) (snd v))
       (d3.rollups date_eqb rows derived_byDate_reduce date)).

Definition derived_channelArr (rows : list Row) : list ChannelEntryV1.t :=
  map (fun kv =>
         let k := fst kv in
         let v := snd kv in
         ChannelEntryV1.mk k (Channel.spend v) (Channel.clicks v) (Channel.impressions v)
           (ratio (Channel.spend v) (Channel.clicks v))
           (ratio (Channel.clicks v) (Channel.impressions v)))
      (derive_channel rows).

Definition derived_market_of_group (kv : string * list Row) : JS.result MarketGroup.t :=
  let k := fst kv in
  let v := snd kv in
  c <- JS.prop (JS.index v 0) city ;;
  s <- JS.prop (JS.index v 0) state ;;
  JS.Ok (MarketGroup.mk k c s (sum v revenue) (sum v online_orders) (sum v sessions)
           (JS.add (JS.add (sum v ad_spend_social) (sum v ad_spend_search))
              (sum v ad_spend_display))).

Definition derived_byMarket (rows : list Row) : JS.result (list MarketEntry.t) :=
  groups <- JS.mapM derived_market_of_group (d3.group String.eqb rows market_key) ;;
  JS.Ok (JS.sort (fun a b => d3.descending (MarketEntry.revenue a) (MarketEntry.revenue b))
           (map market_with_ratios groups)).

(** [derived]: [null] without rows. *)
Definition derived (rows : list Row) : JS.result (option Derived.t) :=
  match rows with
  | [] => JS.Ok None
  | _ :: _ =>
      let totalRevenue := sum rows revenue in
      let totalOrders := sum rows online_orders in
      let totalSessions := sum rows sessions in
      let spend :=
        JS.add (JS.add (sum rows ad_spend_social) (sum rows ad_spend_search))
          (sum rows ad_spend_display) in
      let aov := ratio totalRevenue totalOrders in
      let cvr := ratio totalOrders totalSessions in
      let roas := ratio totalRevenue spend in
      let clicks :=
        JS.add (JS.add (sum rows clicks_social) (sum rows clicks_search))
          (sum rows clicks_display) in
      let cpc := ratio spend clicks in
      let br := weightedBounceRate rows in
      byMarket <- derived_byMarket rows ;;
      JS.Ok (Some (Derived.mk totalRevenue totalOrders totalSessions aov cvr roas cpc br
                     spend clicks (derived_byDate rows) (derived_channelArr rows) byMarket))
  end.

(** A record whose sessions are a count and whose bounce rate is a share. *)
Definition share_row (r : Row) : Prop :=
  exists s b,
    sessions r = JS.Fin s /\ bounce_rate r = JS.Fin b
    /\ (0 <= s)%Qc /\ (0 <= b)%Qc /\ (b <= 1)%Qc.

(** The date, revenue and orders of an entry of [byDate], in the first and
    in the second version of the dashboard. *)
Definition DatePointV1_figures (e : DatePointV1.t) : Date * JS.num * JS.num :=
  (DatePointV1.date e, DatePointV1.revenue e, DatePointV1.orders e).

Definition DatePoint_figures (e : DatePoint.t) : Date * JS.num * JS.num :=
  (DatePoint.date e, DatePoint.revenue e, DatePoint.orders e).

(** A record with another bounce rate. *)
Definition with_bounce (r : Row) (b : JS.num) : Row :=
  mkRow (date r) (location_id r) (city r) (state r) (region r) (sessions r)
    (page_views r) b (conversion_rate r) (online_orders r) (avg_order_value r)
    (revenue r) (ad_spend_social r) (ad_spend_search r) (ad_spend_display r)
    (impressions_social r) (impressions_search r) (impressions_display r)
    (clicks_social r) (clicks_search r) (clicks_display r).

(** 500 sessions bouncing at 2/5 and 600 sessions bouncing at 1/2. *)
Definition bounce_rows : list Row :=
  [ with_bounce austin_jan (JS.div (JS.of_Z 2) (JS.of_Z 5));
    with_bounce austin_feb (JS.div (JS.of_Z 1) (JS.of_Z 2)) ].

(** What an entry of the second version's [channelArr] shares with the
    first version's: every property but [roas]. *)
Definition ChannelEntry_core (e : ChannelEntry.t) : ChannelEntryV1.t :=
  ChannelEntryV1.mk (ChannelEntry.channel e) (ChannelEntry.spend e) (ChannelEntry.clicks e)
    (ChannelEntry.impressions e) (ChannelEntry.cpc e) (ChannelEntry.ctr e).

(** ** [derive] in double precision *)

(** The same function over IEEE 754 binary64 numbers, the numbers of
    JavaScript: [+] and [/] round to nearest and overflow to [Infinity]. *)
Module IEEE.

Definition num : Type := float.

Definition zero : num := 0%float.

(** ToBoolean on a number: [0], [-0] and NaN are falsy. *)
Definition truthy (x : num) : bool :=
  negb (PrimFloat.eqb x zero) && negb (PrimFloat.is_nan x).

Definition add (a b : num) : num := PrimFloat.add a b.
Definition div (a b : num) : num := PrimFloat.div a b.
Definition lt (a b : num) : bool := PrimFloat.ltb a b.
Definition gt (a b : num) : bool := PrimFloat.ltb b a.

(** [a || b] on numbers. *)
Definition or_else (a b : num) : num := if truthy a then a else b.

(** [a === b] on numbers. *)
Definition strict_eq (a b : num) : bool := PrimFloat.eqb a b.

Record Row : Type := mkRow {
  date : Date;
  location_id : string;
  city : string;
  state : string;
  region : string;
  sessions : num;
  page_views : num;
  bounce_rate : num;
  conversion_rate : num;
  online_orders : num;
  avg_order_value : num;
  revenue : num;
  ad_spend_social : num;
  ad_spend_search : num;
  ad_spend_display : num;
  impressions_social : num;
  impressions_search : num;
  impressions_display : num;
  clicks_social : num;
  clicks_search : num;
  clicks_display : num
}.

Definition market_key (d : Row) : string := (city d ++ ", " ++ state d)%string.

(** [d3.sum(values, valueof)]. *)
Definition d3_sum {A} (values : list A) (valueof : A -> num) : num :=
  fold_left
    (fun s d => let value := valueof d in
                if truthy value then add s value else s)
    values zero.

(** Sign of [d3.descending(a, b)]. *)
Definition d3_descending (a b : num) : Z :=
  if lt b a then -1 else if gt b a then 1 else 0.

Definition focus_spend (channelFocus : option string)
    (spend_social spend_search spend_display : num) : num :=
  if focus_is channelFocus "social" then spend_social
  else if focus_is channelFocus "search" then spend_search
  else if focus_is channelFocus "display" then spend_display
  else add (add spend_social spend_search) spend_display.

(** [d ? n / d : 0]. *)
Definition ratio (n d : num) : num :=
  if truthy d then div n d else zero.

Module DateAgg.
Record t : Type := mk { revenue : num; spend : num; orders : num; roas : num }.
End DateAgg.

Module DatePoint.
Record t : Type := mk { date : Date; revenue : num; roas : num; orders : num }.
End DatePoint.

Module Channel.
Record t : Type := mk { spend : num; clicks : num; impressions : num }.
End Channel.

Module ChannelEntry.
Record t : Type := mk {
  channel : string;
  spend : num;
  clicks : num;
  impressions : num;
  cpc : num;
  ctr : num;
  roas : num
}.
End ChannelEntry.

Module MarketGroup.
Record t : Type := mk {
  market : string;
  city : string;
  state : string;
  revenue : num;
  orders : num;
  sessions : num;
  spend : num
}.
End MarketGroup.

Module MarketEntry.
Record t : Type := mk {
  market : string;
  city : string;
  state : string;
  revenue : num;
  orders : num;
  sessions : num;
  spend : num;
  roas : num;
  cvr : num
}.
End MarketEntry.

Module Metrics.
Record t : Type := mk {
  totalRevenue : num;
  totalOrders : num;
  totalSessions : num;
  aov : num;
  cvr : num;
  roas : num;
  byDate : list DatePoint.t;
  channelArr : list ChannelEntry.t;
  byMarket : list MarketEntry.t
}.
End Metrics.

(** [const sum = (arr, key) => d3.sum(arr, (d) => d[key] || 0)]. *)
Definition sum (arr : list Row) (key : Row -> num) : num :=
  d3_sum arr (fun d => or_else (key d) zero).

Definition byDate_reduce (channelFocus : option string) (v : list Row) : DateAgg.t :=
  let revenue := d3_sum v revenue in
  let spend_social := d3_sum v ad_spend_social in
  let spend_search := d3_sum v ad_spend_search in
  let spend_display := d3_sum v ad_spend_display in
  let spend := focus_spend channelFocus spend_social spend_search spend_display in
  let orders := d3_sum v online_orders in
  let roas := ratio revenue spend in
  DateAgg.mk revenue spend orders roas.

Definition derive_byDate (rows : list Row) (channelFocus : option string)
  : list DatePoint.t :=
  JS.sort (fun a b => date_minus (DatePoint.date a) (DatePoint.date b))
    (map (fun kv =>
            DatePoint.mk (fst kv) (DateAgg.revenue (snd kv))
              (DateAgg.roas (snd kv)) (DateAgg.orders (snd kv)))
         (d3.rollups date_eqb rows (byDate_reduce channelFocus) date)).

Definition derive_channel (rows : list Row) : list (string * Channel.t) :=
  [ ("social"%string,
     Channel.mk (sum rows ad_spend_social) (sum rows clicks_social)
       (sum rows impressions_social));
    ("search"%string,
     Channel.mk (sum rows ad_spend_search) (sum rows clicks_search)
       (sum rows impressions_search));
    ("display"%string,
     Channel.mk (sum rows ad_spend_display) (sum rows clicks_display)
       (sum rows impressions_display)) ].

Definition derive_channelArr (rows : list Row) (totalRevenue : num)
  : list ChannelEntry.t :=
  map (fun kv =>
         let k := fst kv in
         let v := snd kv in
         ChannelEntry.mk k (Channel.spend v) (Channel.clicks v) (Channel.impressions v)
           (ratio (Channel.spend v) (Channel.clicks v))
           (ratio (Channel.clicks v) (Channel.impressions v))
           (ratio totalRevenue (Channel.spend v)))
      (derive_channel rows).

Definition market_of_group (channelFocus : option string) (kv : string * list Row)
  : JS.result MarketGroup.t :=
  let k := fst kv in
  let v := snd kv in
  let spend_social := sum v ad_spend_social in
  let spend_search := sum v ad_spend_search in
  let spend_display := sum v ad_spend_display in
  let spend := focus_spend channelFocus spend_social spend_search spend_display in
  let revenue := sum v revenue in
  let orders := sum v online_orders in
  let sessions := sum v sessions in
  c <- JS.prop (JS.index v 0) city ;;
  s <- JS.prop (JS.index v 0) state ;;
  JS.Ok (MarketGroup.mk k c s revenue orders sessions spend).

Definition market_with_ratios (r : MarketGroup.t) : MarketEntry.t :=
  MarketEntry.mk (MarketGroup.market r) (MarketGroup.city r) (MarketGroup.state r)
    (MarketGroup.revenue r) (MarketGroup.orders r) (MarketGroup.sessions r)
    (MarketGroup.spend r)
    (ratio (MarketGroup.revenue r) (MarketGroup.spend r))
    (ratio (MarketGroup.orders r) (MarketGroup.sessions r)).

Definition derive_byMarket (rows : list Row) (channelFocus : option string)
  : JS.result (list MarketEntry.t) :=
  groups <- JS.mapM (market_of_group channelFocus) (d3.group String.eqb rows market_key) ;;
  JS.Ok (JS.sort (fun a b => d3_descending (MarketEntry.revenue a) (MarketEntry.revenue b))
           (map market_with_ratios groups)).

Definition derive (rows : list Row) (channelFocus : option string)
  : JS.result Metrics.t :=
  match rows with
  | [] => JS.Ok (Metrics.mk zero zero zero zero zero zero [] [] [])
  | _ :: _ =>
      let totalRevenue := sum rows revenue in
      let totalOrders := sum rows online_orders in
      let totalSessions := sum rows sessions in
      let aov := ratio totalRevenue totalOrders in
      let spend_total :=
        add (add (sum rows ad_spend_social) (sum rows ad_spend_search))
          (sum rows ad_spend_display) in
      let cvr := ratio totalOrders totalSessions in
      let roas_overall := ratio totalRevenue spend_total in
      let byDate := derive_byDate rows channelFocus in
      let channelArr := derive_channelArr rows totalRevenue in
      byMarket <- derive_byMarket rows channelFocus ;;
      JS.Ok (Metrics.mk totalRevenue totalOrders totalSessions aov cvr roas_overall
               byDate channelArr byMarket)
  end.

(** [weightedBounceRate] of the first version of the dashboard. *)
Definition weightedBounceRate (arr : list Row) : num :=
  let s := sum arr sessions in
  let w :=
    d3_sum arr
      (fun d => PrimFloat.mul (or_else (sessions d) zero) (or_else (bounce_rate d) zero)) in
  ratio w s.

(** The sum of a list of numbers, left to right. *)
Definition total (l : list num) : num := fold_left add l zero.

(** A validated record: the numeric fields read by the core are finite
    numbers. *)
Definition finite_row (r : Row) : bool :=
  forallb (fun key => PrimFloat.is_finite (key r))
    [sessions; online_orders; revenue; ad_spend_social; ad_spend_search;
     ad_spend_display; impressions_social; impressions_search; impressions_display;
     clicks_social; clicks_search; clicks_display].

(** A record of one day with a revenue, a social spend, sessions and a
    bounce rate; every other number is 0. *)
Definition day_row (c s : string) (rev spend ses bounce : num) : Row :=
  mkRow (mkDate 2024 0 1) "L1" c s "South" ses zero bounce zero
    zero zero rev spend zero zero zero zero zero zero zero zero.

#[local] Set Warnings "-inexact-float".

(** Revenues of 10, 10 and 40 cents in two markets. *)
Definition cents_rows : list Row :=
  [ day_row "Austin" "TX" 0.1 0 0 0;
    day_row "Dallas" "TX" 0.1 0 0 0;
    day_row "Austin" "TX" 0.4 0 0 0 ]%float.

(** Two records whose revenue and social spend are 1e308 each: finite
    numbers whose sum exceeds the largest double. *)
Definition huge_rows : list Row :=
  [ day_row "Austin" "TX" 1e308 1e308 0 0;
    day_row "Austin" "TX" 1e308 1e308 0 0 ]%float.

(** Two records of 1e308 sessions each, all of them bouncing. *)
Definition crowd_rows : list Row :=
  [ day_row "Austin" "TX" 0 0 1e308 1;
    day_row "Austin" "TX" 0 0 1e308 1 ]%float.

#[local] Set Warnings "inexact-float".

End IEEE.

(** [a <= b] between finite numbers. *)
Definition num_le (a b : JS.num) : Prop :=
  exists x y, a = JS.Fin x /\ b = JS.Fin y /\ (x <= y)%Qc.

(** The records of each month, in ascending order of the months. *)
Definition month_groups (rows : list Row) : list (Date * list Row) :=
  JS.sort (fun a b => date_minus (fst a) (fst b))
    (d3.group date_eqb rows (fun d => monthKey (date d))).

(** The entry of a channel's monthly series for the records of one month. *)
Definition channel_month (ch : string) (kv : Date * list Row) : ChannelMonth.t :=
  let v := snd kv in
  let spend :=
    if String.eqb ch "social" then d3.sum v ad_spend_social
    else if String.eqb ch "search" then d3.sum v ad_spend_search
    else d3.sum v ad_spend_display in
  ChannelMonth.mk (fst kv) (d3.sum v revenue) (ratio (d3.sum v revenue) spend)
    (ratio (d3.sum v online_orders) (d3.sum v sessions)).

(** ** Facts about numbers *)

Lemma is_zero_true (q : Qc) : JS.is_zero q = true <-> q = 0%Qc.
Proof.
  unfold JS.is_zero. rewrite Qeq_bool_iff. split.
  - intros H. apply Qc_is_canon. exact H.
  - intros ->. reflexivity.
Qed.

Lemma truthy_Fin (q : Qc) : JS.truthy (JS.Fin q) = false <-> q = 0%Qc.
Proof.
  simpl. rewrite negb_false_iff. apply is_zero_true.
Qed.

Lemma truthy_finite_zero (n : JS.num) :
  JS.is_finite n -> (JS.truthy n = false <-> n = JS.zero).
Proof.
  intros [q ->]. rewrite truthy_Fin. unfold JS.zero. split.
  - intros ->. reflexivity.
  - intros H. injection H. auto.
Qed.

Lemma add_comm (a b : JS.num) : JS.add a b = JS.add b a.
Proof.
  destruct a as [x|[|]|], b as [y|[|]|]; simpl; try reflexivity.
  now rewrite Qcplus_comm.
Qed.

Lemma add_assoc (a b c : JS.num) : JS.add a (JS.add b c) = JS.add (JS.add a b) c.
Proof.
  destruct a as [x|[|]|], b as [y|[|]|], c as [z|[|]|]; simpl; try reflexivity.
  now rewrite Qcplus_assoc.
Qed.

Lemma add_zero_r (a : JS.num) : JS.add a JS.zero = a.
Proof.
  destruct a as [x|s|]; simpl; try reflexivity. now rewrite Qcplus_0_r.
Qed.

Lemma add_zero_l (a : JS.num) : JS.add JS.zero a = a.
Proof. rewrite add_comm. apply add_zero_r. Qed.

Lemma add_finite (a b : JS.num) :
  JS.is_finite a -> JS.is_finite b -> JS.is_finite (JS.add a b).
Proof. intros [x ->] [y ->]. simpl. now eexists. Qed.

Lemma or_else_zero_finite (v : JS.num) : JS.is_finite v -> JS.or_else v JS.zero = v.
Proof.
  intros [q ->]. unfold JS.or_else. destruct (JS.truthy (JS.Fin q)) eqn:E; [reflexivity|].
  apply truthy_Fin in E. now subst.
Qed.

Lemma or_else_zero_idem (v : JS.num) :
  JS.or_else (JS.or_else v JS.zero) JS.zero = JS.or_else v JS.zero.
Proof.
  unfold JS.or_else. destruct (JS.truthy v) eqn:E; [now rewrite E | reflexivity].
Qed.

Lemma fold_add_acc (l : list JS.num) (a : JS.num) :
  fold_left JS.add l a = JS.add a (total l).
Proof.
  revert a. induction l as [|x l IH]; intros a.
  - unfold total. simpl. now rewrite add_zero_r.
  - change (fold_left JS.add (x :: l) a) with (fold_left JS.add l (JS.add a x)).
    change (total (x :: l)) with (fold_left JS.add l (JS.add JS.zero x)).
    rewrite IH, (IH (JS.add JS.zero x)), add_zero_l. now rewrite add_assoc.
Qed.

Lemma total_cons (x : JS.num) (l : list JS.num) : total (x :: l) = JS.add x (total l).
Proof.
  change (total (x :: l)) with (fold_left JS.add l (JS.add JS.zero x)).
  rewrite fold_add_acc. now rewrite add_zero_l.
Qed.

Lemma total_finite (l : list JS.num) : Forall JS.is_finite l -> JS.is_finite (total l).
Proof.
  induction 1 as [|x l Hx _ IH].
  - now exists 0%Qc.
  - rewrite total_cons. now apply add_finite.
Qed.

(** [d3.sum] adds the cleaned values: skipping a falsy value is adding 0. *)
Lemma d3_sum_total {A} (l : list A) (f : A -> JS.num) :
  d3.sum l f = total (map (fun d => JS.or_else (f d) JS.zero) l).
Proof.
  unfold d3.sum, total. generalize JS.zero at 1 3 as acc.
  induction l as [|x l IH]; intros acc; simpl; [reflexivity|].
  rewrite <- IH. f_equal. unfold JS.or_else.
  destruct (JS.truthy (f x)); [reflexivity | now rewrite add_zero_r].
Qed.

Lemma sum_d3_sum (l : list Row) (f : Row -> JS.num) : sum l f = d3.sum l f.
Proof.
  unfold sum. rewrite !d3_sum_total. f_equal.
  apply map_ext. intros d. apply or_else_zero_idem.
Qed.

Lemma d3_sum_column (l : list Row) (f : Row -> JS.num) :
  Forall (fun r => JS.is_finite (f r)) l -> d3.sum l f = column_sum f l.
Proof.
  intros H. rewrite d3_sum_total. unfold column_sum. f_equal.
  apply map_ext_in. intros r Hr. apply or_else_zero_finite.
  rewrite Forall_forall in H. now apply H.
Qed.

Lemma column_sum_finite (l : list Row) (f : Row -> JS.num) :
  Forall (fun r => JS.is_finite (f r)) l -> JS.is_finite (column_sum f l).
Proof.
  intros H. apply total_finite. now apply Forall_map.
Qed.

(** ** Facts about grouping *)

Section KeyFacts.
Context {K : Type} (eqb : K -> K -> bool).
Hypothesis eqb_spec : forall x y, eqb x y = true <-> x = y.

Let step (seen : list K) (k : K) : list K :=
  if existsb (eqb k) seen then seen else seen ++ [k].

Lemma eqb_refl_key (k : K) : eqb k k = true.
Proof. now apply eqb_spec. Qed.

Lemma existsb_eqb_In (k : K) (seen : list K) :
  existsb (eqb k) seen = true <-> In k seen.
Proof.
  rewrite existsb_exists. split.
  - intros [x [Hx E]]. apply eqb_spec in E. now subst.
  - intros H. exists k. split; [assumption | apply eqb_refl_key].
Qed.

Lemma step_In (seen : list K) (k k' : K) :
  In k' (step seen k) <-> In k' seen \/ k' = k.
Proof.
  unfold step. destruct (existsb (eqb k) seen) eqn:E.
  - apply existsb_eqb_In in E. split; [auto | intros [H | ->]; assumption].
  - rewrite in_app_iff. simpl. intuition.
Qed.

Lemma step_NoDup (seen : list K) (k : K) : NoDup seen -> NoDup (step seen k).
Proof.
  intros H. unfold step. destruct (existsb (eqb k) seen) eqn:E; [assumption|].
  apply NoDup_app; [assumption | repeat constructor; intros [] | ].
  intros a Ha [<- | []].
  apply existsb_eqb_In in Ha. congruence.
Qed.

Lemma fold_step_In (ks seen : list K) (k : K) :
  In k (fold_left step ks seen) <-> In k seen \/ In k ks.
Proof.
  revert seen. induction ks as [|x ks IH]; intros seen; simpl.
  - intuition.
  - rewrite IH, step_In. intuition.
Qed.

Lemma fold_step_NoDup (ks seen : list K) :
  NoDup seen -> NoDup (fold_left step ks seen).
Proof.
  revert seen. induction ks as [|x ks IH]; intros seen H; simpl; [assumption|].
  apply IH. now apply step_NoDup.
Qed.

Lemma first_keys_In (ks : list K) (k : K) : In k (first_keys eqb ks) <-> In k ks.
Proof.
  unfold first_keys. fold step. rewrite fold_step_In. simpl. intuition.
Qed.

Lemma first_keys_NoDup (ks : list K) : NoDup (first_keys eqb ks).
Proof. unfold first_keys. fold step. apply fold_step_NoDup. constructor. Qed.

Lemma first_keys_snoc (ks : list K) (k : K) :
  first_keys eqb (ks ++ [k]) = step (first_keys eqb ks) k.
Proof. unfold first_keys. now rewrite fold_left_app. Qed.

End KeyFacts.

Section GroupFacts.
Context {A K : Type} (eqb : K -> K -> bool).
Hypothesis eqb_spec : forall x y, eqb x y = true <-> x = y.
Variable key : A -> K.

Let step (seen : list K) (k : K) : list K :=
  if existsb (eqb k) seen then seen else seen ++ [k].

Let members (k : K) (l : list A) : list A := filter (fun d => eqb (key d) k) l.

Lemma members_snoc (k : K) (l : list A) (d : A) :
  members k (l ++ [d]) = members k l ++ (if eqb (key d) k then [d] else []).
Proof. unfold members. rewrite filter_app. simpl. now destruct (eqb (key d) k). Qed.

Lemma members_nil_iff (k : K) (l : list A) :
  members k l = [] <-> ~ In k (map key l).
Proof.
  unfold members. induction l as [|x l IH]; simpl.
  - intuition.
  - destruct (eqb (key x) k) eqn:E.
    + apply eqb_spec in E. split; [discriminate | intros H; exfalso; apply H; now left].
    + rewrite IH. split.
      * intros H [H1 | H1]; [|now apply H].
        apply eqb_spec in H1. congruence.
      * intros H H1. apply H. now right.
Qed.

(** Pushing a record onto the map of the groups of [l] gives the map of
    the groups of [l ++ [d]]. *)
Lemma group_push_members (l : list A) (d : A) (ks : list K) :
  NoDup ks ->
  (members (key d) l = [] \/ In (key d) ks) ->
  d3.group_push eqb (key d) d (map (fun k => (k, members k l)) ks)
  = map (fun k => (k, members k (l ++ [d]))) (step ks (key d)).
Proof.
  induction ks as [|k0 ks IH]; intros Hnd Hcov.
  - destruct Hcov as [Hnil | []]. unfold step. simpl.
    rewrite members_snoc, Hnil, (eqb_refl_key eqb eqb_spec). reflexivity.
  - inversion Hnd as [|? ? Hk0 Hnd']; subst.
    simpl. destruct (eqb k0 (key d)) eqn:E.
    + apply eqb_spec in E. subst k0.
      assert (Hs : step (key d :: ks) (key d) = key d :: ks).
      { unfold step. simpl. now rewrite (eqb_refl_key eqb eqb_spec). }
      rewrite Hs. simpl. rewrite members_snoc, (eqb_refl_key eqb eqb_spec). f_equal.
      apply map_ext_in. intros k Hk. rewrite members_snoc.
      destruct (eqb (key d) k) eqn:E'.
      * apply eqb_spec in E'. subst k. contradiction.
      * now rewrite app_nil_r.
    + assert (Hne : eqb (key d) k0 = false).
      { destruct (eqb (key d) k0) eqn:E'; [|reflexivity].
        apply eqb_spec in E'. subst k0. now rewrite (eqb_refl_key eqb eqb_spec) in E. }
      assert (Hs : step (k0 :: ks) (key d) = k0 :: step ks (key d)).
      { unfold step. simpl. rewrite Hne. simpl.
        now destruct (existsb (eqb (key d)) ks). }
      rewrite Hs. simpl. rewrite (members_snoc k0), Hne, app_nil_r. f_equal.
      apply IH; [assumption|].
      destruct Hcov as [H | [H | H]]; [now left | | now right].
      subst k0. now rewrite (eqb_refl_key eqb eqb_spec) in E.
Qed.

Lemma group_from (rest pre : list A) :
  fold_left (fun m d => d3.group_push eqb (key d) d m) rest
    (map (fun k => (k, members k pre)) (first_keys eqb (map key pre)))
  = map (fun k => (k, members k (pre ++ rest)))
      (first_keys eqb (map key (pre ++ rest))).
Proof.
  revert pre. induction rest as [|d rest IH]; intros pre.
  - now rewrite app_nil_r.
  - simpl. rewrite group_push_members.
    + unfold step. rewrite <- first_keys_snoc.
      replace (map key pre ++ [key d]) with (map key (pre ++ [d]))
        by (now rewrite map_app).
      rewrite IH. now rewrite <- app_assoc.
    + apply (first_keys_NoDup eqb eqb_spec).
    + destruct (existsb (eqb (key d)) (map key pre)) eqn:E.
      * right. apply (first_keys_In eqb eqb_spec). now apply (existsb_eqb_In eqb eqb_spec).
      * left. apply members_nil_iff. intros H.
        apply (existsb_eqb_In eqb eqb_spec) in H. congruence.
Qed.
End GroupFacts.

Lemma group_members {A K} (eqb : K -> K -> bool) (key : A -> K) (values : list A) :
  (forall x y, eqb x y = true <-> x = y) ->
  d3.group eqb values key
  = map (fun k => (k, filter (fun d => eqb (key d) k) values))
      (first_keys eqb (map key values)).
Proof.
  intros Heqb. unfold d3.group.
  exact (group_from eqb Heqb key values []).
Qed.

(** ** Facts about sorting *)

Lemma insert_sorted_perm {A} (cmp : A -> A -> Z) (x : A) (l : list A) :
  Permutation (JS.insert_sorted cmp x l) (x :: l).
Proof.
  induction l as [|y l IH]; simpl.
  - reflexivity.
  - destruct (cmp x y >? 0); [|reflexivity].
    rewrite IH. apply perm_swap.
Qed.

Lemma sort_perm {A} (cmp : A -> A -> Z) (l : list A) : Permutation (JS.sort cmp l) l.
Proof.
  unfold JS.sort. induction l as [|x l IH]; simpl.
  - reflexivity.
  - rewrite insert_sorted_perm. now constructor.
Qed.

Section SortFacts.
Context {A : Type} (cmp : A -> A -> Z).
Hypothesis cmp_total : forall x y, cmp x y > 0 -> cmp y x <= 0.
Hypothesis cmp_trans : forall x y z, cmp x y <= 0 -> cmp y z <= 0 -> cmp x z <= 0.

Lemma insert_sorted_sorted (x : A) (l : list A) :
  StronglySorted (fun a b => cmp a b <= 0) l ->
  StronglySorted (fun a b => cmp a b <= 0) (JS.insert_sorted cmp x l).
Proof.
  induction 1 as [|y l Hl IH Hy]; simpl.
  - repeat constructor.
  - destruct (cmp x y >? 0) eqn:E.
    + apply Z.gtb_lt in E. constructor; [exact IH|].
      apply (Permutation_Forall (Permutation_sym (insert_sorted_perm cmp x l))).
      constructor; [apply cmp_total; lia | exact Hy].
    + assert (Hxy : cmp x y <= 0).
      { destruct (Z.gtb_spec (cmp x y) 0); [discriminate | lia]. }
      constructor; [now constructor|].
      constructor; [exact Hxy|].
      rewrite Forall_forall in Hy |- *. intros z Hz.
      apply (cmp_trans x y z Hxy). now apply Hy.
Qed.

Lemma sort_sorted (l : list A) :
  StronglySorted (fun a b => cmp a b <= 0) (JS.sort cmp l).
Proof.
  unfold JS.sort. induction l as [|x l IH]; simpl.
  - constructor.
  - now apply insert_sorted_sorted.
Qed.
End SortFacts.

(** ** Facts about dates *)

Lemma date_eqb_spec (a b : Date) : date_eqb a b = true <-> a = b.
Proof.
  destruct a as [y m d t], b as [y' m' d' t']. unfold date_eqb. simpl.
  rewrite !andb_true_iff, !Z.eqb_eq. split.
  - intros [[[-> ->] ->] ->]. reflexivity.
  - intros H. injection H. auto.
Qed.

Lemma date_compare_spec (a b : Date) :
  match date_compare a b with
  | Lt => date_lt a b
  | Eq => a = b
  | Gt => date_lt b a
  end.
Proof.
  destruct a as [y m d t], b as [y' m' d' t']. unfold date_compare, date_lt. simpl.
  destruct (Z.compare_spec y y'); try lia.
  destruct (Z.compare_spec m m'); try lia.
  destruct (Z.compare_spec d d'); try lia.
  destruct (Z.compare_spec t t'); try lia.
  now subst.
Qed.

Lemma date_lt_irrefl (a : Date) : ~ date_lt a a.
Proof. unfold date_lt. lia. Qed.

Lemma date_lt_trans (a b c : Date) : date_lt a b -> date_lt b c -> date_lt a c.
Proof. unfold date_lt. lia. Qed.

Lemma date_leb_le (a b : Date) : date_leb a b = true <-> date_le a b.
Proof.
  unfold date_leb, date_le. pose proof (date_compare_spec a b) as H.
  destruct (date_compare a b); split; auto; try discriminate.
  intros [H1 | ->]; exfalso.
  - apply (date_lt_irrefl a). now apply (date_lt_trans a b a).
  - now apply (date_lt_irrefl b).
Qed.

Lemma date_minus_le (a b : Date) : date_minus a b <= 0 <-> date_le a b.
Proof.
  rewrite <- date_leb_le. unfold date_minus, date_leb.
  destruct (date_compare a b); split; intros; try reflexivity; try lia; discriminate.
Qed.

Lemma date_le_trans (a b c : Date) : date_le a b -> date_le b c -> date_le a c.
Proof.
  unfold date_le. intros [H1 | ->] [H2 | ->]; auto.
  left. now apply (date_lt_trans a b c).
Qed.

Lemma date_minus_total (a b : Date) : date_minus a b > 0 -> date_minus b a <= 0.
Proof.
  intros H. apply date_minus_le. left.
  unfold date_minus in H. pose proof (date_compare_spec a b) as Hs.
  destruct (date_compare a b); try lia. exact Hs.
Qed.

(** Sorting by a date property yields a strictly ascending sequence when the
    dates are pairwise distinct. *)
Lemma sort_by_date_ascending {A} (f : A -> Date) (l : list A) :
  NoDup (map f l) ->
  StronglySorted date_lt (map f (JS.sort (fun a b => date_minus (f a) (f b)) l)).
Proof.
  intros Hnd.
  assert (Hs : StronglySorted (fun a b => date_minus (f a) (f b) <= 0)
                 (JS.sort (fun a b => date_minus (f a) (f b)) l)).
  { apply sort_sorted.
    - intros x y. apply date_minus_total.
    - intros x y z. rewrite !date_minus_le. apply date_le_trans. }
  assert (Hnd' : NoDup (map f (JS.sort (fun a b => date_minus (f a) (f b)) l))).
  { apply (Permutation_NoDup (l := map f l)); [|assumption].
    apply Permutation_map. apply Permutation_sym. apply sort_perm. }
  induction Hs as [|x s Hs IH Hx]; simpl in *.
  - constructor.
  - inversion Hnd' as [|? ? Hnotin Hnd'']; subst.
    constructor; [now apply IH|].
    rewrite Forall_forall in Hx |- *. intros d Hd.
    apply in_map_iff in Hd. destruct Hd as [y [<- Hy]].
    specialize (Hx y Hy). apply date_minus_le in Hx.
    destruct Hx as [Hlt | Heq]; [assumption|].
    exfalso. apply Hnotin. rewrite Heq. now apply in_map.
Qed.

(** ** Facts about [derive] *)

Lemma ratio_spec (n d : JS.num) : JS.is_finite d -> spec_ratio n d (ratio n d).
Proof.
  intros Hd. unfold spec_ratio, ratio. pose proof (truthy_finite_zero d Hd) as Hz.
  destruct (JS.truthy d); split; intros H; try reflexivity.
  - subst d. destruct Hz as [_ Hz]. now specialize (Hz eq_refl).
  - exfalso. apply H. now apply Hz.
Qed.

Lemma ratio_finite (n d : JS.num) :
  JS.is_finite n -> JS.is_finite d -> JS.is_finite (ratio n d).
Proof.
  intros [x ->] [y ->]. unfold ratio. simpl.
  destruct (JS.is_zero y); simpl; [now exists 0%Qc | now eexists].
Qed.

Lemma focus_spend_finite (cf : option string) (a b c : JS.num) :
  JS.is_finite a -> JS.is_finite b -> JS.is_finite c ->
  JS.is_finite (focus_spend cf a b c).
Proof.
  intros Ha Hb Hc. unfold focus_spend.
  destruct (focus_is cf "social"); [assumption|].
  destruct (focus_is cf "search"); [assumption|].
  destruct (focus_is cf "display"); [assumption|].
  now repeat apply add_finite.
Qed.

Lemma finite_rows_column (key : Row -> JS.num) (rows : list Row) :
  (forall r, finite_row r -> JS.is_finite (key r)) ->
  Forall finite_row rows -> Forall (fun r => JS.is_finite (key r)) rows.
Proof. intros H. apply Forall_impl. exact H. Qed.

Lemma focus_spend_spec (cf : option string) (v : list Row) :
  Forall finite_row v ->
  spec_spend cf v
    (focus_spend cf (d3.sum v ad_spend_social) (d3.sum v ad_spend_search)
       (d3.sum v ad_spend_display)).
Proof.
  intros Hv.
  rewrite !d3_sum_column
    by (apply (finite_rows_column _ v); [unfold finite_row; tauto | assumption]).
  unfold spec_spend, focus_spend.
  repeat split; intros ->; reflexivity.
Qed.

Lemma mapM_inv {A B} (f : A -> JS.result B) (l : list A) (l' : list B) :
  JS.mapM f l = JS.Ok l' -> Forall2 (fun x y => f x = JS.Ok y) l l'.
Proof.
  revert l'. induction l as [|x l IH]; intros l' H; simpl in H.
  - injection H as <-. constructor.
  - destruct (f x) as [y|] eqn:Ex; simpl in H; [|discriminate].
    destruct (JS.mapM f l) as [ys|] eqn:El; simpl in H; [|discriminate].
    injection H as <-. constructor; [assumption | now apply IH].
Qed.

Lemma mapM_total {A B} (f : A -> JS.result B) (l : list A) :
  (forall x, In x l -> exists y, f x = JS.Ok y) -> exists l', JS.mapM f l = JS.Ok l'.
Proof.
  induction l as [|x l IH]; intros H; simpl.
  - now eexists.
  - destruct (H x (or_introl eq_refl)) as [y ->].
    destruct IH as [ys ->]; [intros z Hz; apply H; now right|].
    simpl. now eexists.
Qed.

Lemma Forall2_map_eq {A B C} (R : A -> B -> Prop) (g : A -> C) (h : B -> C)
    (l : list A) (l' : list B) :
  (forall x y, R x y -> h y = g x) -> Forall2 R l l' -> map h l' = map g l.
Proof.
  intros H. induction 1 as [|x y l l' Hxy _ IH]; simpl; [reflexivity|].
  now rewrite IH, (H x y Hxy).
Qed.

Lemma market_of_group_inv (cf : option string) (g : string * list Row) (e : MarketGroup.t) :
  market_of_group cf g = JS.Ok e ->
  snd g <> []
  /\ MarketGroup.market e = fst g
  /\ MarketGroup.revenue e = sum (snd g) revenue
  /\ MarketGroup.orders e = sum (snd g) online_orders
  /\ MarketGroup.sessions e = sum (snd g) sessions
  /\ MarketGroup.spend e
     = focus_spend cf (sum (snd g) ad_spend_social) (sum (snd g) ad_spend_search)
         (sum (snd g) ad_spend_display).
Proof.
  destruct g as [k [|r0 v]]; unfold market_of_group; simpl; [discriminate|].
  intros H. injection H as <-. simpl. repeat split. discriminate.
Qed.

Lemma market_of_group_ok (cf : option string) (g : string * list Row) :
  snd g <> [] -> exists e, market_of_group cf g = JS.Ok e.
Proof.
  destruct g as [k [|r0 v]]; simpl; [congruence|].
  intros _. unfold market_of_group. simpl. now eexists.
Qed.

Lemma group_nonempty {A K} (eqb : K -> K -> bool) (key : A -> K) (values : list A)
    (g : K * list A) :
  (forall x y, eqb x y = true <-> x = y) ->
  In g (d3.group eqb values key) ->
  snd g = filter (fun d => eqb (key d) (fst g)) values /\ snd g <> []
  /\ In (fst g) (map key values).
Proof.
  intros Heqb. rewrite (group_members eqb key values Heqb).
  intros H. apply in_map_iff in H. destruct H as [k [<- Hk]]. simpl.
  apply -> (first_keys_In eqb Heqb) in Hk.
  split; [reflexivity|]. split; [|assumption].
  intros Hnil. revert Hk. apply (members_nil_iff eqb Heqb key). exact Hnil.
Qed.

Lemma string_eqb_spec (x y : string) : String.eqb x y = true <-> x = y.
Proof. apply String.eqb_eq. Qed.

Lemma derive_byMarket_eq (rows : list Row) (cf : option string) :
  exists groups,
    Forall2 (fun g e => market_of_group cf g = JS.Ok e)
      (d3.group String.eqb rows market_key) groups
    /\ derive_byMarket rows cf
       = JS.Ok (JS.sort (fun a b => d3.descending (MarketEntry.revenue a) (MarketEntry.revenue b))
                  (map market_with_ratios groups)).
Proof.
  unfold derive_byMarket.
  destruct (mapM_total (market_of_group cf) (d3.group String.eqb rows market_key))
    as [groups Hg].
  - intros g Hg. apply market_of_group_ok.
    now apply (group_nonempty String.eqb market_key rows g string_eqb_spec).
  - exists groups. rewrite Hg. simpl. split; [now apply mapM_inv | reflexivity].
Qed.

Lemma derive_eq (rows : list Row) (cf : option string) :
  exists groups,
    Forall2 (fun g e => market_of_group cf g = JS.Ok e)
      (d3.group String.eqb rows market_key) groups
    /\ derive rows cf
       = JS.Ok
           (match rows with
            | [] => Metrics.mk JS.zero JS.zero JS.zero JS.zero JS.zero JS.zero [] [] []
            | _ :: _ =>
                Metrics.mk (sum rows revenue) (sum rows online_orders) (sum rows sessions)
                  (ratio (sum rows revenue) (sum rows online_orders))
                  (ratio (sum rows online_orders) (sum rows sessions))
                  (ratio (sum rows revenue)
                     (JS.add (JS.add (sum rows ad_spend_social) (sum rows ad_spend_search))
                        (sum rows ad_spend_display)))
                  (derive_byDate rows cf)
                  (derive_channelArr rows (sum rows revenue))
                  (JS.sort
                     (fun a b => d3.descending (MarketEntry.revenue a) (MarketEntry.revenue b))
                     (map market_with_ratios groups))
            end).
Proof.
  destruct (derive_byMarket_eq rows cf) as [groups [HF Hbm]].
  exists groups. split; [assumption|].
  destruct rows as [|r rows]; [reflexivity|].
  unfold derive. rewrite Hbm. reflexivity.
Qed.

Lemma sum_column (rows : list Row) (key : Row -> JS.num) :
  Forall (fun r => JS.is_finite (key r)) rows -> sum rows key = column_sum key rows.
Proof. intros H. rewrite sum_d3_sum. now apply d3_sum_column. Qed.

Lemma rollups_members {A K R} (eqb : K -> K -> bool) (key : A -> K)
    (reduce : list A -> R) (values : list A) :
  (forall x y, eqb x y = true <-> x = y) ->
  d3.rollups eqb values reduce key
  = map (fun k => (k, reduce (filter (fun d => eqb (key d) k) values)))
      (first_keys eqb (map key values)).
Proof.
  intros Heqb. unfold d3.rollups. rewrite (group_members eqb key values Heqb).
  now rewrite map_map.
Qed.

Lemma Forall_filter_keep {A} (P : A -> Prop) (f : A -> bool) (l : list A) :
  Forall P l -> Forall P (filter f l).
Proof.
  rewrite !Forall_forall. intros H x Hx. apply filter_In in Hx. now apply H.
Qed.

Lemma first_keys_filter_nonempty {A K} (eqb : K -> K -> bool) (key : A -> K)
    (values : list A) (k : K) :
  (forall x y, eqb x y = true <-> x = y) ->
  In k (first_keys eqb (map key values)) ->
  filter (fun d => eqb (key d) k) values <> [].
Proof.
  intros Heqb Hk Hnil. apply -> (first_keys_In eqb Heqb) in Hk.
  revert Hk. now apply (members_nil_iff eqb Heqb key).
Qed.

Lemma derive_byDate_eq (rows : list Row) (cf : option string) :
  derive_byDate rows cf
  = JS.sort (fun a b => date_minus (DatePoint.date a) (DatePoint.date b))
      (map (fun k =>
              DatePoint.mk k
                (DateAgg.revenue (byDate_reduce cf (on_date k rows)))
                (DateAgg.roas (byDate_reduce cf (on_date k rows)))
                (DateAgg.orders (byDate_reduce cf (on_date k rows))))
         (first_keys date_eqb (map date rows))).
Proof.
  unfold derive_byDate, byDate_rollups.
  rewrite (rollups_members date_eqb date _ rows date_eqb_spec).
  now rewrite map_map.
Qed.

(** ** The channel summary *)

(** C1, as stated, fails on the empty list: [derive] returns an empty
    [channelArr] there, not three zero-valued entries. *)
Lemma derive_empty_channelArr :
  ~ (exists m, derive [] None = JS.Ok m
               /\ List.length (Metrics.channelArr m) = 3%nat).
Proof.
  intros [m [H L]]. simpl in H. injection H as <-. simpl in L. discriminate.
Qed.

(** C1 (amended): for every non-empty record list and every channel focus,
    [channelArr] has exactly three entries, for social, search and display in
    that order, carrying the sums of the respective spend, clicks and
    impressions columns; for the empty list [channelArr] is empty. *)
Theorem derive_channelArr_entries (rows : list Row) (cf : option string) :
  exists m,
    derive rows cf = JS.Ok m
    /\ match rows with
       | [] => Metrics.channelArr m = []
       | _ :: _ =>
           map ChannelEntry.channel (Metrics.channelArr m)
           = ["social"; "search"; "display"]%string
           /\ map ChannelEntry.spend (Metrics.channelArr m)
              = [sum rows ad_spend_social; sum rows ad_spend_search;
                 sum rows ad_spend_display]
           /\ map ChannelEntry.clicks (Metrics.channelArr m)
              = [sum rows clicks_social; sum rows clicks_search; sum rows clicks_display]
           /\ map ChannelEntry.impressions (Metrics.channelArr m)
              = [sum rows impressions_social; sum rows impressions_search;
                 sum rows impressions_display]
       end.
Proof.
  destruct (derive_eq rows cf) as [groups [_ H]].
  eexists. split; [exact H|].
  destruct rows as [|r rows]; simpl; [reflexivity|].
  repeat split.
Qed.

(** ** Totals *)

(** C2: the totals are the column sums over all records, the overall ROAS
    is total revenue over the spend of all three channels (0 when that spend
    is 0), and none of them depends on the channel focus. *)
Theorem derive_totals (rows : list Row) (cf : option string) :
  Forall finite_row rows ->
  exists m,
    derive rows cf = JS.Ok m
    /\ Metrics.totalRevenue m = column_sum revenue rows
    /\ Metrics.totalOrders m = column_sum online_orders rows
    /\ Metrics.totalSessions m = column_sum sessions rows
    /\ spec_ratio (Metrics.totalRevenue m) (all_spend rows) (Metrics.roas m)
    /\ forall cf',
         exists m',
           derive rows cf' = JS.Ok m'
           /\ Metrics.totalRevenue m' = Metrics.totalRevenue m
           /\ Metrics.totalOrders m' = Metrics.totalOrders m
           /\ Metrics.totalSessions m' = Metrics.totalSessions m
           /\ Metrics.roas m' = Metrics.roas m.
Proof.
  intros Hfin.
  assert (Hcol : forall key, (forall r, finite_row r -> JS.is_finite (key r)) ->
                             sum rows key = column_sum key rows).
  { intros key Hkey. apply sum_column. now apply finite_rows_column. }
  assert (Hspend : JS.is_finite (all_spend rows)).
  { unfold all_spend. repeat apply add_finite; apply column_sum_finite;
      apply finite_rows_column; try assumption; unfold finite_row; tauto. }
  destruct (derive_eq rows cf) as [groups [_ H]].
  eexists. split; [exact H|].
  destruct rows as [|r rows].
  - simpl. repeat split; try reflexivity.
    + intros Hne. exfalso. apply Hne. unfold all_spend.
      change (column_sum ad_spend_social []) with JS.zero.
      change (column_sum ad_spend_search []) with JS.zero.
      change (column_sum ad_spend_display []) with JS.zero.
      now rewrite !add_zero_r.
    + intros cf'. eexists. split; [reflexivity|]. repeat split.
  - cbv beta iota. unfold Metrics.totalRevenue, Metrics.totalOrders,
      Metrics.totalSessions, Metrics.roas.
    rewrite !Hcol by (unfold finite_row; tauto).
    repeat split.
    + intros Hz. fold (all_spend (r :: rows)). rewrite Hz. reflexivity.
    + intros Hnz. fold (all_spend (r :: rows)).
      now apply (ratio_spec _ _ Hspend).
    + intros cf'. destruct (derive_eq (r :: rows) cf') as [groups' [_ H']].
      eexists. split; [exact H'|]. cbv beta iota.
      rewrite !Hcol by (unfold finite_row; tauto).
      repeat split.
Qed.

(** The totals of the sample records, under a search focus. *)
Lemma derive_totals_sample :
  Forall finite_row sample_rows
  /\ exists m,
    derive sample_rows (Some "search"%string) = JS.Ok m
    /\ Metrics.totalRevenue m = column_sum revenue sample_rows
    /\ Metrics.totalOrders m = column_sum online_orders sample_rows
    /\ Metrics.totalSessions m = column_sum sessions sample_rows
    /\ spec_ratio (Metrics.totalRevenue m) (all_spend sample_rows) (Metrics.roas m)
    /\ forall cf',
         exists m',
           derive sample_rows cf' = JS.Ok m'
           /\ Metrics.totalRevenue m' = Metrics.totalRevenue m
           /\ Metrics.totalOrders m' = Metrics.totalOrders m
           /\ Metrics.totalSessions m' = Metrics.totalSessions m
           /\ Metrics.roas m' = Metrics.roas m.
Proof.
  assert (Hfin : Forall finite_row sample_rows).
  { repeat constructor; unfold finite_row; simpl; repeat split; eexists; reflexivity. }
  split; [exact Hfin|].
  exact (derive_totals sample_rows (Some "search"%string) Hfin).
Defined.

(** ** Markets *)

Lemma Forall2_In_right {A B} (R : A -> B -> Prop) (l : list A) (l' : list B) (y : B) :
  Forall2 R l l' -> In y l' -> exists x, In x l /\ R x y.
Proof.
  induction 1 as [|x0 y0 l l' Hxy _ IH]; simpl; intros Hy; [contradiction|].
  destruct Hy as [<- | Hy].
  - exists x0. split; [now left | assumption].
  - destruct (IH Hy) as [x [Hx HR]]. exists x. split; [now right | assumption].
Qed.

(** C8, as stated, fails in double precision: with revenues of 0.1 and 0.4 in
    one market and 0.1 in another, [totalRevenue] is
    [(0.1 + 0.1) + 0.4 = 0.6000000000000001] while the market revenues
    [0.1 + 0.4 = 0.5] and [0.1] add up to [0.6]. *)
Lemma byMarket_revenue_rounding :
  ~ (forall m,
        IEEE.derive IEEE.cents_rows None = JS.Ok m ->
        IEEE.total (map IEEE.MarketEntry.revenue (IEEE.Metrics.byMarket m))
        = IEEE.Metrics.totalRevenue m).
Proof.
  intros H.
  destruct (IEEE.derive IEEE.cents_rows None) as [m|] eqn:E;
    [|vm_compute in E; discriminate E].
  specialize (H m eq_refl).
  apply (f_equal (fun x => IEEE.strict_eq x (IEEE.Metrics.totalRevenue m))) in H.
  vm_compute in E. injection E as <-.
  vm_compute in H. discriminate H.
Qed.

(** C8 (amended): the market grouping partitions the records: every record
    falls under exactly one market entry (the entries stand for pairwise
    distinct markets), the revenue of an entry is the sum of the revenue of
    the records of its market and [totalRevenue] the sum of the revenue of
    all records, each taken in input order. *)
Theorem byMarket_revenue_partition (rows : list Row) (cf : option string) :
  exists m,
    derive rows cf = JS.Ok m
    /\ Metrics.totalRevenue m = sum rows revenue
    /\ (forall r, In r rows ->
          exists e, In e (Metrics.byMarket m) /\ MarketEntry.market e = market_key r)
    /\ NoDup (map MarketEntry.market (Metrics.byMarket m))
    /\ (forall e, In e (Metrics.byMarket m) ->
          in_market (MarketEntry.market e) rows <> []
          /\ MarketEntry.revenue e = sum (in_market (MarketEntry.market e) rows) revenue).
Proof.
  destruct (derive_eq rows cf) as [groups [HF H]].
  eexists. split; [exact H|].
  destruct rows as [|r rows].
  { cbv beta iota. simpl. repeat split; try constructor; contradiction. }
  cbv beta iota. unfold Metrics.byMarket, Metrics.totalRevenue.
  set (rs := r :: rows) in *.
  split; [reflexivity|]. split; [|split].
  - intros r1 Hr1.
    assert (Hk : In (market_key r1) (map fst (d3.group String.eqb rs market_key))).
    { rewrite (group_members String.eqb market_key rs string_eqb_spec).
      rewrite map_map. rewrite (map_ext _ (fun k : string => k)) by reflexivity.
      rewrite map_id.
      apply (first_keys_In String.eqb string_eqb_spec). now apply in_map. }
    rewrite <- (Forall2_map_eq _ fst MarketGroup.market _ _
                  (fun g e Hge => proj1 (proj2 (market_of_group_inv cf g e Hge))) HF) in Hk.
    apply in_map_iff in Hk. destruct Hk as [eg [Ek Heg]].
    exists (market_with_ratios eg). split; [|exact Ek].
    apply (Permutation_in _ (Permutation_sym (sort_perm _ _))). now apply in_map.
  - apply (Permutation_NoDup
             (l := map MarketEntry.market (map market_with_ratios groups))).
    { apply Permutation_map. apply Permutation_sym. apply sort_perm. }
    rewrite map_map.
    rewrite (map_ext (fun x => MarketEntry.market (market_with_ratios x))
               MarketGroup.market) by reflexivity.
    rewrite (Forall2_map_eq _ fst MarketGroup.market _ _
               (fun g e Hge => proj1 (proj2 (market_of_group_inv cf g e Hge))) HF).
    rewrite (group_members String.eqb market_key rs string_eqb_spec).
    rewrite map_map. simpl. rewrite map_id.
    apply (first_keys_NoDup String.eqb string_eqb_spec).
  - intros e He. apply (Permutation_in _ (sort_perm _ _)) in He.
    apply in_map_iff in He. destruct He as [eg [<- Heg]].
    destruct (Forall2_In_right _ _ _ _ HF Heg) as [g [Hg Hge]].
    destruct (market_of_group_inv cf g eg Hge) as [Hne [Hk [Hr _]]].
    destruct (group_nonempty String.eqb market_key rs g string_eqb_spec Hg) as [Hv _].
    change (MarketEntry.market (market_with_ratios eg)) with (MarketGroup.market eg).
    change (MarketEntry.revenue (market_with_ratios eg)) with (MarketGroup.revenue eg).
    rewrite Hk, Hr.
    unfold in_market. rewrite <- Hv. split; [assumption | reflexivity].
Qed.

(** ** The time series *)

(** C6, as stated, fails: the entries of [byDate] have no [spend] property,
    the per-date spend is only used to compute their ROAS. *)
Lemma byDate_entry_without_spend :
  ~ (forall m e,
        derive [austin_jan] None = JS.Ok m ->
        In e (Metrics.byDate m) ->
        DatePoint_get e "spend"
        = Number (all_spend (on_date (DatePoint.date e) [austin_jan]))).
Proof.
  intros H.
  destruct (derive_eq [austin_jan] None) as [groups [_ Hm]].
  cbv beta iota in Hm.
  destruct (derive_byDate [austin_jan] None) as [|e l] eqn:E.
  - vm_compute in E. discriminate E.
  - specialize (H _ e Hm (or_introl eq_refl)).
    unfold DatePoint_get in H. simpl String.eqb in H. discriminate H.
Qed.

(** C6 (amended): [byDate] has one entry per distinct date of the input,
    carrying that date, the sums of revenue and orders over the records of
    the date, and the ROAS of that revenue over the spend of those records
    (the focused channel's column, or the three columns together); the
    entries are in strictly ascending date order.  The spend itself is not
    part of an entry. *)
Theorem derive_byDate_entries (rows : list Row) (cf : option string) :
  Forall finite_row rows ->
  exists m,
    derive rows cf = JS.Ok m
    /\ (forall e, In e (Metrics.byDate m) ->
          let v := on_date (DatePoint.date e) rows in
          v <> []
          /\ DatePoint.revenue e = column_sum revenue v
          /\ DatePoint.orders e = column_sum online_orders v
          /\ (exists spend,
                spec_spend cf v spend
                /\ spec_ratio (DatePoint.revenue e) spend (DatePoint.roas e))
          /\ DatePoint_get e "spend" = Undefined)
    /\ (forall r, In r rows ->
          exists e, In e (Metrics.byDate m) /\ DatePoint.date e = date r)
    /\ StronglySorted date_lt (map DatePoint.date (Metrics.byDate m)).
Proof.
  intros Hfin.
  destruct (derive_eq rows cf) as [groups [_ H]].
  eexists. split; [exact H|].
  destruct rows as [|r0 rows0].
  { simpl. repeat split; try contradiction. constructor. }
  set (rows := r0 :: rows0) in *.
  cbv beta iota. unfold Metrics.byDate. rewrite derive_byDate_eq.
  set (mk := fun k : Date =>
               DatePoint.mk k (DateAgg.revenue (byDate_reduce cf (on_date k rows)))
                 (DateAgg.roas (byDate_reduce cf (on_date k rows)))
                 (DateAgg.orders (byDate_reduce cf (on_date k rows)))).
  set (keys := first_keys date_eqb (map date rows)).
  split; [|split].
  - intros e He.
    apply (Permutation_in _ (sort_perm _ _)) in He.
    apply in_map_iff in He. destruct He as [k [<- Hk]].
    unfold mk. cbv zeta. unfold DatePoint.date, DatePoint.revenue, DatePoint.orders,
      DatePoint.roas.
    assert (Hv : Forall finite_row (on_date k rows))
      by (now apply Forall_filter_keep).
    assert (Hcol : forall key, (forall r, finite_row r -> JS.is_finite (key r)) ->
                               Forall (fun r => JS.is_finite (key r)) (on_date k rows)).
    { intros key Hkey. now apply finite_rows_column. }
    split; [|split; [|split; [|split]]].
    + now apply (first_keys_filter_nonempty date_eqb date rows k date_eqb_spec).
    + apply d3_sum_column. apply Hcol. unfold finite_row. tauto.
    + apply d3_sum_column. apply Hcol. unfold finite_row. tauto.
    + eexists. split; [now apply focus_spend_spec|].
      apply ratio_spec. apply focus_spend_finite;
        rewrite d3_sum_column; try apply column_sum_finite;
        apply Hcol; unfold finite_row; tauto.
    + reflexivity.
  - intros r Hr. exists (mk (date r)). split; [|reflexivity].
    apply (Permutation_in _ (Permutation_sym (sort_perm _ _))).
    apply in_map. apply (first_keys_In date_eqb date_eqb_spec).
    now apply in_map.
  - apply sort_by_date_ascending.
    rewrite map_map. simpl. rewrite map_id.
    apply (first_keys_NoDup date_eqb date_eqb_spec).
Qed.

(** The time series of the sample records, under a social focus. *)
Lemma derive_byDate_entries_sample :
  Forall finite_row sample_rows
  /\
  exists m,
    derive sample_rows (Some "social"%string) = JS.Ok m
    /\ (forall e, In e (Metrics.byDate m) ->
          let v := on_date (DatePoint.date e) sample_rows in
          v <> []
          /\ DatePoint.revenue e = column_sum revenue v
          /\ DatePoint.orders e = column_sum online_orders v
          /\ (exists spend,
                spec_spend (Some "social"%string) v spend
                /\ spec_ratio (DatePoint.revenue e) spend (DatePoint.roas e))
          /\ DatePoint_get e "spend" = Undefined)
    /\ (forall r, In r sample_rows ->
          exists e, In e (Metrics.byDate m) /\ DatePoint.date e = date r)
    /\ StronglySorted date_lt (map DatePoint.date (Metrics.byDate m)).
Proof.
  assert (Hfin : Forall finite_row sample_rows).
  { repeat constructor; unfold finite_row; simpl; repeat split; eexists; reflexivity. }
  split; [exact Hfin|].
  exact (derive_byDate_entries sample_rows (Some "social"%string) Hfin).
Defined.

(** ** The filter *)

Lemma rowsFiltered_keep (st : FilterState) (r : Row) :
  ((match startDate st with None => true | Some s => date_leb s (date r) end)
   && (match endDate st with None => true | Some e => date_leb (date r) e end))
  && (if String.eqb (selectedMarket st) "All" then true
      else String.eqb (market_key r) (selectedMarket st)) = true
  <-> passes st r.
Proof.
  unfold passes, market_key. rewrite !andb_true_iff.
  assert (Hs : match startDate st with None => true | Some s => date_leb s (date r) end = true
               <-> match startDate st with None => True | Some s => date_le s (date r) end).
  { destruct (startDate st); [apply date_leb_le | tauto]. }
  assert (He : match endDate st with None => true | Some e => date_leb (date r) e end = true
               <-> match endDate st with None => True | Some e => date_le (date r) e end).
  { destruct (endDate st); [apply date_leb_le | tauto]. }
  assert (Hm : (if String.eqb (selectedMarket st) "All" then true
                else String.eqb (city r ++ ", " ++ state r) (selectedMarket st)) = true
               <-> (selectedMarket st = "All"%string
                    \/ (city r ++ ", " ++ state r)%string = selectedMarket st)).
  { destruct (String.eqb (selectedMarket st) "All") eqn:E.
    - apply String.eqb_eq in E. tauto.
    - apply String.eqb_neq in E. rewrite String.eqb_eq. tauto. }
  tauto.
Qed.


(** An end bound at local midnight of 1 February keeps a record of that
    instant and drops a record of 02:00 on the same day. *)
Lemma rowsFiltered_end_instant :
  rowsFiltered [austin_jan; austin_feb; austin_feb_0200]
    (mkFilterState None (Some (mkDate 2024 1 1)) "All" "All")
  = [austin_jan; austin_feb].
Proof. reflexivity. Qed.

(** ** Facts about months *)

Lemma days_in_month_lower (y m : Z) : 28 <= days_in_month y m.
Proof.
  unfold days_in_month.
  repeat match goal with
         | |- context [match ?x with _ => _ end] => destruct x
         end; lia.
Qed.

Lemma newDate_plain (y m : Z) :
  (y < 0 \/ 99 < y) -> 0 <= m <= 11 -> newDate y m = mkDate y m 1.
Proof.
  intros Hy Hm. unfold newDate.
  assert (E : (0 <=? y) && (y <=? 99) = false).
  { destruct (Z.leb_spec 0 y), (Z.leb_spec y 99); simpl; try reflexivity. lia. }
  rewrite E. rewrite Z.div_small, Z.mod_small by lia. f_equal. lia.
Qed.

Lemma monthKey_wf (d : Date) :
  wf_date d -> monthKey d = mkDate (getFullYear d) (getMonth d) 1.
Proof.
  intros [Hy [Hm _]]. unfold monthKey. apply newDate_plain; lia.
Qed.

Lemma monthKey_same_month (a b : Date) :
  wf_date a -> wf_date b -> (monthKey a = monthKey b <-> same_month a b).
Proof.
  intros Ha Hb. rewrite (monthKey_wf a Ha), (monthKey_wf b Hb). unfold same_month.
  split.
  - intros H. injection H. auto.
  - intros [-> ->]. reflexivity.
Qed.

(** Twelve months before the first of a month is the first of the same
    month of the previous year. *)
Lemma addMonths_year_before (y m : Z) :
  (y < 0 \/ 100 < y) -> 0 <= m <= 11 ->
  addMonths (mkDate y m 1) (-12) = mkDate (y - 1) m 1.
Proof.
  intros Hy Hm. unfold addMonths, setMonth. simpl getFullYear. simpl getMonth.
  simpl getDate.
  assert (Ed : (m + -12) / 12 = -1) by (symmetry; apply Z.div_unique with (r := m); lia).
  assert (Em : (m + -12) mod 12 = m) by (symmetry; apply Z.mod_unique with (q := -1); lia).
  rewrite Ed, Em.
  pose proof (days_in_month_lower (y + -1) m) as Hd.
  destruct (Z.gtb_spec 1 (days_in_month (y + -1) m)); [lia|].
  simpl getFullYear. simpl getMonth.
  rewrite newDate_plain by lia. reflexivity.
Qed.

(** ** Facts about [buildInsights] *)

Lemma monthly_eq (rows : list Row) (cf : option string) :
  monthly rows cf
  = JS.sort (fun a b => date_minus (Bucket.month a) (Bucket.month b))
      (map (fun k => Bucket.mk k (monthly_reduce cf (in_month k rows)))
         (first_keys date_eqb (map (fun d => monthKey (date d)) rows))).
Proof.
  unfold monthly.
  rewrite (rollups_members date_eqb (fun d => monthKey (date d)) _ rows date_eqb_spec).
  now rewrite map_map.
Qed.

Lemma monthly_length (rows : list Row) (cf : option string) :
  List.length (monthly rows cf)
  = List.length (first_keys date_eqb (map (fun d => monthKey (date d)) rows)).
Proof.
  rewrite monthly_eq.
  rewrite (Permutation_length (sort_perm _ _)). now rewrite length_map.
Qed.

Lemma monthly_In (rows : list Row) (cf : option string) (b : Bucket.t) :
  In b (monthly rows cf) <->
  exists r, In r rows
            /\ b = Bucket.mk (monthKey (date r))
                     (monthly_reduce cf (in_month (monthKey (date r)) rows)).
Proof.
  rewrite monthly_eq. split.
  - intros H. apply (Permutation_in _ (sort_perm _ _)) in H.
    apply in_map_iff in H. destruct H as [k [<- Hk]].
    apply -> (first_keys_In date_eqb date_eqb_spec) in Hk.
    apply in_map_iff in Hk. destruct Hk as [r [<- Hr]]. now exists r.
  - intros [r [Hr ->]].
    apply (Permutation_in _ (Permutation_sym (sort_perm _ _))).
    apply (in_map (fun k => Bucket.mk k (monthly_reduce cf (in_month k rows)))).
    apply (first_keys_In date_eqb date_eqb_spec).
    now apply (in_map (fun d => monthKey (date d))).
Qed.

Lemma monthly_months_NoDup (rows : list Row) (cf : option string) :
  NoDup (map Bucket.month (monthly rows cf)).
Proof.
  rewrite monthly_eq.
  apply (Permutation_NoDup
           (l := map Bucket.month
                   (map (fun k => Bucket.mk k (monthly_reduce cf (in_month k rows)))
                      (first_keys date_eqb (map (fun d => monthKey (date d)) rows))))).
  - apply Permutation_map. apply Permutation_sym. apply sort_perm.
  - rewrite map_map. simpl. rewrite map_id.
    apply (first_keys_NoDup date_eqb date_eqb_spec).
Qed.

Lemma monthly_ascending (rows : list Row) (cf : option string) :
  StronglySorted date_lt (map Bucket.month (monthly rows cf)).
Proof.
  rewrite monthly_eq. apply sort_by_date_ascending.
  rewrite map_map. simpl. rewrite map_id.
  apply (first_keys_NoDup date_eqb date_eqb_spec).
Qed.

Lemma first_keys_few {K} (eqb : K -> K -> bool) (ks : list K) :
  (forall x y, eqb x y = true <-> x = y) ->
  ((List.length (first_keys eqb ks) < 2)%nat
   <-> forall x y, In x ks -> In y ks -> x = y).
Proof.
  intros Heqb.
  pose proof (first_keys_NoDup eqb Heqb ks) as Hnd.
  pose proof (first_keys_In eqb Heqb ks) as Hin.
  destruct (first_keys eqb ks) as [|a [|b l]]; simpl.
  - split; [|lia]. intros _ x y Hx _. now apply Hin in Hx.
  - split; [|lia]. intros _ x y Hx Hy.
    apply Hin in Hx. apply Hin in Hy. simpl in Hx, Hy.
    destruct Hx as [<- | []], Hy as [<- | []]. reflexivity.
  - split; [lia|]. intros H. exfalso.
    inversion Hnd as [|? ? Hna _]; subst. apply Hna. left.
    apply H; apply Hin; simpl; auto.
Qed.

Lemma index_last {A} (l : list A) (n : Z) :
  1 <= n -> (Z.to_nat n <= List.length l)%nat ->
  exists x, JS.index l (Z.of_nat (List.length l) - n) = Some x /\ In x l.
Proof.
  intros Hn Hl. unfold JS.index.
  destruct (Z.ltb_spec (Z.of_nat (List.length l) - n) 0); [lia|].
  destruct (nth_error l (Z.to_nat (Z.of_nat (List.length l) - n))) as [x|] eqn:E.
  - exists x. split; [reflexivity|]. eapply nth_error_In. exact E.
  - exfalso. apply nth_error_None in E. lia.
Qed.

Lemma bestMarketMsg_ok (rows : list Row) : exists msg, bestMarketMsg rows = JS.Ok msg.
Proof.
  unfold bestMarketMsg. destruct (marketMonthly rows) as [|e mm]; [now eexists|].
  simpl. now eexists.
Qed.

Lemma topRoas_ok (rows : list Row) : exists top, topRoas (channelStats rows) = Some top.
Proof. unfold channelStats, channels. simpl. now eexists. Qed.

Lemma buildInsights_few (rows : list Row) (cf : option string) :
  (List.length (monthly rows cf) < 2)%nat -> buildInsights rows cf = JS.Ok None.
Proof.
  intros H. destruct rows as [|r rows]; [reflexivity|].
  unfold buildInsights. apply Nat.ltb_lt in H. now rewrite H.
Qed.

Lemma buildInsights_enough (rows : list Row) (cf : option string) :
  (2 <= List.length (monthly rows cf))%nat ->
  exists curr prev msg top,
    JS.index (monthly rows cf) (Z.of_nat (List.length (monthly rows cf)) - 1) = Some curr
    /\ JS.index (monthly rows cf) (Z.of_nat (List.length (monthly rows cf)) - 2) = Some prev
    /\ bestMarketMsg rows = JS.Ok msg
    /\ topRoas (channelStats rows) = Some top
    /\ buildInsights rows cf
       = JS.Ok (Some
           (Insights.mk
              (Labels.mk (Bucket.month curr) (Bucket.month prev)
                 (addMonths (Bucket.month curr) (-12)))
              (card_of (Bucket.v curr)) (card_of (Bucket.v prev))
              (card_of (yoy_of (monthly rows cf) (addMonths (Bucket.month curr) (-12))))
              (Narratives.mk (ChannelStat.ch top, ChannelStat.dRoas top) msg
                 (Bucket.month curr, Bucket.month prev,
                  JS.div (JS.sub (Stats.cvr (Bucket.v curr)) (Stats.cvr (Bucket.v prev)))
                    (JS.or_else (Stats.cvr (Bucket.v prev)) JS.one))))).
Proof.
  intros H.
  destruct (index_last (monthly rows cf) 1) as [curr [Hc _]]; [lia | simpl; lia |].
  destruct (index_last (monthly rows cf) 2) as [prev [Hp _]]; [lia | simpl; lia |].
  destruct (bestMarketMsg_ok rows) as [msg Hm].
  destruct (topRoas_ok rows) as [top Ht].
  exists curr, prev, msg, top. repeat (split; [assumption|]).
  destruct rows as [|r rows].
  - exfalso. rewrite monthly_length in H. simpl in H. lia.
  - unfold buildInsights.
    destruct (Nat.ltb_spec (List.length (monthly (r :: rows) cf)) 2); [lia|].
    rewrite Hc, Hp, Hm, Ht. reflexivity.
Qed.

Lemma monthly_few_iff (rows : list Row) (cf : option string) :
  wf_dates rows ->
  ((List.length (monthly rows cf) < 2)%nat <-> within_one_month rows).
Proof.
  intros Hwf. unfold wf_dates in Hwf. rewrite Forall_forall in Hwf.
  rewrite monthly_length, (first_keys_few date_eqb _ date_eqb_spec).
  unfold within_one_month. split.
  - intros H r1 r2 H1 H2.
    apply (monthKey_same_month _ _ (Hwf r1 H1) (Hwf r2 H2)).
    apply H; apply (in_map (fun d => monthKey (date d))); assumption.
  - intros H x y Hx Hy.
    apply in_map_iff in Hx. destruct Hx as [r1 [<- H1]].
    apply in_map_iff in Hy. destruct Hy as [r2 [<- H2]].
    apply (monthKey_same_month _ _ (Hwf r1 H1) (Hwf r2 H2)). now apply H.
Qed.

Lemma monthly_enough_spans (rows : list Row) (cf : option string) :
  wf_dates rows ->
  (2 <= List.length (monthly rows cf))%nat -> spans_two_months rows.
Proof.
  intros Hwf. unfold wf_dates in Hwf. rewrite Forall_forall in Hwf.
  rewrite monthly_length.
  pose proof (first_keys_NoDup date_eqb date_eqb_spec
                (map (fun d => monthKey (date d)) rows)) as Hnd.
  pose proof (first_keys_In date_eqb date_eqb_spec
                (map (fun d => monthKey (date d)) rows)) as Hin.
  destruct (first_keys date_eqb (map (fun d => monthKey (date d)) rows))
    as [|a [|b l]]; simpl; try lia.
  intros _.
  pose proof (proj1 (Hin a) (or_introl eq_refl)) as Ha.
  pose proof (proj1 (Hin b) (or_intror (or_introl eq_refl))) as Hb.
  apply in_map_iff in Ha. destruct Ha as [r1 [Ea H1]].
  apply in_map_iff in Hb. destruct Hb as [r2 [Eb H2]].
  exists r1, r2. repeat split; try assumption.
  intros Hsame.
  apply (monthKey_same_month _ _ (Hwf r1 H1) (Hwf r2 H2)) in Hsame.
  inversion Hnd as [|? ? Hna _]; subst. apply Hna. left. congruence.
Qed.

Lemma index_last_split {A} (l : list A) (c : A) :
  JS.index l (Z.of_nat (List.length l) - 1) = Some c -> exists l', l = l' ++ [c].
Proof.
  unfold JS.index.
  destruct (Z.ltb_spec (Z.of_nat (List.length l) - 1) 0); [discriminate|].
  intros E. destruct (nth_error_split l _ E) as [l1 [l2 [-> Hlen]]].
  rewrite length_app in Hlen. simpl in Hlen.
  destruct l2 as [|x l2]; [now exists l1|]. simpl in Hlen. lia.
Qed.

Lemma sorted_last_greatest {A} (R : A -> A -> Prop) (l : list A) (c : A) :
  StronglySorted R (l ++ [c]) -> Forall (fun x => R x c) l.
Proof.
  induction l as [|x l IH]; simpl; intros H; [constructor|].
  inversion H as [|? ? Hs Hx]; subst. constructor.
  - rewrite Forall_forall in Hx. apply Hx. apply in_or_app. right. now left.
  - now apply IH.
Qed.

Lemma NoDup_map_same {A B} (f : A -> B) (l : list A) (x y : A) :
  NoDup (map f l) -> In x l -> In y l -> f x = f y -> x = y.
Proof.
  induction l as [|a l IH]; simpl; intros Hnd Hx Hy E; [contradiction|].
  inversion Hnd as [|? ? Hna Hnd']; subst.
  destruct Hx as [-> | Hx], Hy as [-> | Hy]; auto.
  - exfalso. apply Hna. rewrite E. now apply in_map.
  - exfalso. apply Hna. rewrite <- E. now apply in_map.
Qed.

(** ** Insufficient data *)

(** C3: on validated dates, [buildInsights] returns [null] exactly when all
    records fall in one calendar month (or there is no record), returns a
    payload exactly when two records fall in different months, and never
    throws; the panel renders the [null] result as a placeholder. *)
Theorem buildInsights_null_iff (rows : list Row) (cf : option string) :
  wf_dates rows ->
  (buildInsights rows cf = JS.Ok None <-> within_one_month rows)
  /\ ((exists i, buildInsights rows cf = JS.Ok (Some i)) <-> spans_two_months rows)
  /\ buildInsights rows cf <> JS.TypeError
  /\ (within_one_month rows ->
      InsightsPanel rows cf = JS.Ok (EmptyChart "Not enough data for insights")).
Proof.
  intros Hwf.
  assert (Hexcl : spans_two_months rows -> ~ within_one_month rows).
  { intros [r1 [r2 [H1 [H2 Hn]]]] H. apply Hn. now apply H. }
  destruct (Nat.lt_ge_cases (List.length (monthly rows cf)) 2) as [Hlt | Hge].
  - pose proof (buildInsights_few rows cf Hlt) as E.
    pose proof (proj1 (monthly_few_iff rows cf Hwf) Hlt) as Hone.
    unfold InsightsPanel. rewrite E. split; [|split; [|split]].
    + split; [intros _; exact Hone | reflexivity].
    + split; [intros [i Hi]; discriminate | ].
      intros Htwo. exfalso. now apply (Hexcl Htwo).
    + discriminate.
    + reflexivity.
  - destruct (buildInsights_enough rows cf Hge) as [curr [prev [msg [top [_ [_ [_ [_ E]]]]]]]].
    pose proof (monthly_enough_spans rows cf Hwf Hge) as Htwo.
    rewrite E. split; [|split; [|split]].
    + split; [discriminate | ].
      intros Hone. exfalso. now apply (Hexcl Htwo).
    + split; [intros _; exact Htwo | intros _; now eexists].
    + discriminate.
    + intros Hone. exfalso. now apply (Hexcl Htwo).
Qed.

(** The sample records have validated dates. *)
Lemma buildInsights_null_iff_sample :
  wf_dates sample_rows
  /\ (buildInsights sample_rows None = JS.Ok None <-> within_one_month sample_rows)
  /\ ((exists i, buildInsights sample_rows None = JS.Ok (Some i))
      <-> spans_two_months sample_rows)
  /\ buildInsights sample_rows None <> JS.TypeError
  /\ (within_one_month sample_rows ->
      InsightsPanel sample_rows None = JS.Ok (EmptyChart "Not enough data for insights")).
Proof.
  assert (Hwf : wf_dates sample_rows).
  { repeat constructor; simpl; lia. }
  split; [exact Hwf|]. exact (buildInsights_null_iff sample_rows None Hwf).
Defined.

(** ** Year over year *)

(** C4: on validated dates, the year-over-year comparator of a payload is the
    bucket of the first of the same month one year before the current (last
    and latest) bucket: the payload's yoy revenue, orders, ROAS and CVR are
    the revenue, orders, ROAS and CVR of that bucket; and all four values are
    0 when there is no such bucket. *)
Theorem buildInsights_yoy (rows : list Row) (cf : option string) (i : Insights.t) :
  wf_dates rows ->
  buildInsights rows cf = JS.Ok (Some i) ->
  exists curr,
    JS.index (monthly rows cf) (Z.of_nat (List.length (monthly rows cf)) - 1) = Some curr
    /\ (forall b, In b (monthly rows cf) -> date_le (Bucket.month b) (Bucket.month curr))
    /\ Labels.currLabel (Insights.labels i) = Bucket.month curr
    /\ Labels.yoyLabel (Insights.labels i)
       = mkDate (getFullYear (Bucket.month curr) - 1) (getMonth (Bucket.month curr)) 1
    /\ (forall b, In b (monthly rows cf) ->
          Bucket.month b = Labels.yoyLabel (Insights.labels i) ->
          card_shows (Insights.yoy i) (Bucket.v b))
    /\ ((forall b, In b (monthly rows cf) ->
           Bucket.month b <> Labels.yoyLabel (Insights.labels i)) ->
        card_all_zero (Insights.yoy i)).
Proof.
  intros Hwf Hi.
  destruct (Nat.lt_ge_cases (List.length (monthly rows cf)) 2) as [Hlt | Hge].
  { rewrite (buildInsights_few rows cf Hlt) in Hi. discriminate. }
  destruct (buildInsights_enough rows cf Hge) as [curr [prev [msg [top [Hc [_ [_ [_ E]]]]]]]].
  rewrite E in Hi. injection Hi as <-.
  exists curr. split; [exact Hc|].
  destruct (index_last_split _ _ Hc) as [l' Hl'].
  assert (Hcin : In curr (monthly rows cf)).
  { rewrite Hl'. apply in_or_app. right. now left. }
  assert (Hkey : addMonths (Bucket.month curr) (-12)
                 = mkDate (getFullYear (Bucket.month curr) - 1)
                     (getMonth (Bucket.month curr)) 1).
  { apply monthly_In in Hcin. destruct Hcin as [r [Hr ->]]. simpl Bucket.month.
    unfold wf_dates in Hwf. rewrite Forall_forall in Hwf.
    pose proof (Hwf r Hr) as Hd. rewrite (monthKey_wf _ Hd).
    destruct Hd as [Hy [Hm _]]. simpl getFullYear. simpl getMonth.
    apply addMonths_year_before; lia. }
  split; [|split; [reflexivity | split; [exact Hkey | split]]].
  - intros b Hb. pose proof (monthly_ascending rows cf) as Hs.
    rewrite Hl' in Hs, Hb. rewrite map_app in Hs. simpl in Hs.
    apply sorted_last_greatest in Hs. rewrite Forall_forall in Hs.
    apply in_app_or in Hb. destruct Hb as [Hb | [<- | []]].
    + left. apply Hs. now apply in_map.
    + now right.
  - simpl. intros b Hb Hmonth. unfold yoy_of.
    destruct (find (fun m => date_eqb (Bucket.month m) (addMonths (Bucket.month curr) (-12)))
                (monthly rows cf)) as [b'|] eqn:Ef.
    + apply find_some in Ef. destruct Ef as [Hb' Em]. apply date_eqb_spec in Em.
      assert (Eb : b' = b).
      { apply (NoDup_map_same Bucket.month (monthly rows cf)); try assumption.
        - apply monthly_months_NoDup.
        - congruence. }
      subst b'. repeat split.
    + exfalso. pose proof (find_none _ _ Ef b Hb) as Hn. simpl in Hn.
      rewrite Hmonth in Hn.
      assert (Ht : date_eqb (addMonths (Bucket.month curr) (-12))
                     (addMonths (Bucket.month curr) (-12)) = true)
        by now apply date_eqb_spec.
      congruence.
  - simpl. intros Hnone. unfold yoy_of.
    destruct (find (fun m => date_eqb (Bucket.month m) (addMonths (Bucket.month curr) (-12)))
                (monthly rows cf)) as [b'|] eqn:Ef; [|repeat split].
    exfalso. apply find_some in Ef. destruct Ef as [Hb' Em].
    apply date_eqb_spec in Em. now apply (Hnone b' Hb').
Qed.

(** Records with a bucket one year before the current month: February 2024
    is compared with February 2023, whose revenue was 900 from 18 orders,
    at a ROAS of 10 and a CVR of 1/25. *)
Lemma buildInsights_yoy_sample :
  wf_dates yoy_rows
  /\ exists i,
       buildInsights yoy_rows None = JS.Ok (Some i)
       /\ Labels.currLabel (Insights.labels i) = mkDate 2024 1 1
       /\ Labels.yoyLabel (Insights.labels i) = mkDate 2023 1 1
       /\ Card.revenue (Insights.yoy i) = JS.of_Z 900
       /\ Card.orders (Insights.yoy i) = JS.of_Z 18
       /\ Card.roas (Insights.yoy i) = JS.of_Z 10
       /\ Card.cvr (Insights.yoy i) = JS.div (JS.of_Z 1) (JS.of_Z 25).
Proof.
  assert (Hwf : wf_dates yoy_rows).
  { repeat constructor; simpl; lia. }
  split; [exact Hwf|].
  destruct (buildInsights yoy_rows None) as [[i|]|] eqn:E.
  - exists i. split; [reflexivity|].
    destruct (buildInsights_yoy yoy_rows None i Hwf E)
      as [curr [Hc [_ [Hcurr [Hyoy [Hfound _]]]]]].
    destruct (monthly yoy_rows None) as [|b l] eqn:Em; [vm_compute in Em; discriminate Em|].
    vm_compute in Em. injection Em as <- <-.
    vm_compute in Hc. injection Hc as <-.
    rewrite Hyoy, Hcurr. split; [reflexivity|]. split; [reflexivity|].
    destruct (Hfound _ (or_introl eq_refl)) as [Hrev [Hord [Hroas Hcvr]]].
    { rewrite Hyoy. reflexivity. }
    rewrite Hrev, Hord, Hroas, Hcvr.
    repeat split; vm_compute; f_equal; apply Qc_is_canon; reflexivity.
  - vm_compute in E. discriminate E.
  - vm_compute in E. discriminate E.
Defined.

(** ** Deltas *)

Lemma delta_spec (c p : JS.num) :
  JS.is_finite c -> JS.is_finite p -> spec_delta c p (delta c p).
Proof.
  intros Hc Hp. unfold spec_delta, delta.
  pose proof (truthy_finite_zero p Hp) as Zp.
  pose proof (truthy_finite_zero c Hc) as Zc.
  destruct (JS.truthy p).
  - assert (Hne : p <> JS.zero) by (intros E; apply Zp in E; discriminate).
    split; [intros _; reflexivity|]. split; intros; contradiction.
  - assert (Hz : p = JS.zero) by (now apply Zp).
    split; [intros; contradiction|].
    destruct (JS.truthy c).
    + split; [intros _ _; reflexivity|]. intros _ E. apply Zc in E. discriminate.
    + split; [|intros _ _; reflexivity]. intros _ Hn. exfalso. apply Hn. now apply Zc.
Qed.

Lemma div_finite (a b : JS.num) :
  JS.is_finite a -> JS.is_finite b -> JS.truthy b = true -> JS.is_finite (JS.div a b).
Proof.
  intros [x ->] [y ->]. simpl. intros H. apply negb_true_iff in H. rewrite H.
  now eexists.
Qed.

Lemma sub_finite (a b : JS.num) :
  JS.is_finite a -> JS.is_finite b -> JS.is_finite (JS.sub a b).
Proof. intros [x ->] [y ->]. simpl. now eexists. Qed.

Lemma delta_finite (c p : JS.num) :
  JS.is_finite c -> JS.is_finite p -> JS.is_finite (delta c p).
Proof.
  intros Hc Hp. unfold delta. destruct (JS.truthy p) eqn:E.
  - apply div_finite; try assumption. now apply sub_finite.
  - destruct (JS.truthy c); [now exists 1%Qc | now exists 0%Qc].
Qed.

Lemma badge_shows_pct (pct : JS.num) :
  JS.is_finite pct ->
  pct = (if JS.ge pct JS.zero then JS.abs pct else JS.neg (JS.abs pct)).
Proof.
  intros [x ->]. unfold JS.ge, JS.zero, JS.lt, JS.abs, JS.is_neg.
  destruct (x ?= 0)%Qc; simpl; try reflexivity.
  now rewrite Qcopp_involutive.
Qed.

Lemma DeltaCard_follows (label : string) (c p : JS.num) :
  JS.is_finite c -> JS.is_finite p -> card_follows_convention (DeltaCard label c p).
Proof.
  intros Hc Hp. unfold card_follows_convention, DeltaCard. simpl. split.
  - now apply delta_spec.
  - apply badge_shows_pct. now apply delta_finite.
Qed.

Lemma monthly_reduce_finite (cf : option string) (v : list Row) :
  Forall finite_row v -> finite_stats (monthly_reduce cf v).
Proof.
  intros Hv.
  assert (Hcol : forall key, (forall r, finite_row r -> JS.is_finite (key r)) ->
                             JS.is_finite (d3.sum v key)).
  { intros key Hkey. rewrite d3_sum_column; [apply column_sum_finite|];
      now apply finite_rows_column. }
  assert (Hrev : JS.is_finite (d3.sum v revenue)) by (apply Hcol; unfold finite_row; tauto).
  assert (Hord : JS.is_finite (d3.sum v online_orders))
    by (apply Hcol; unfold finite_row; tauto).
  assert (Hses : JS.is_finite (d3.sum v sessions)) by (apply Hcol; unfold finite_row; tauto).
  assert (Hsp : JS.is_finite
                  (focus_spend cf (d3.sum v ad_spend_social) (d3.sum v ad_spend_search)
                     (d3.sum v ad_spend_display))).
  { apply focus_spend_finite; apply Hcol; unfold finite_row; tauto. }
  unfold finite_stats, monthly_reduce. simpl.
  repeat split; try assumption; now apply ratio_finite.
Qed.

Lemma monthly_finite (rows : list Row) (cf : option string) (b : Bucket.t) :
  Forall finite_row rows -> In b (monthly rows cf) -> finite_stats (Bucket.v b).
Proof.
  intros Hfin Hb. apply monthly_In in Hb. destruct Hb as [r [_ ->]]. simpl.
  apply monthly_reduce_finite. now apply Forall_filter_keep.
Qed.

Lemma card_of_finite (s : Stats.t) : finite_stats s -> finite_card (card_of s).
Proof. unfold finite_stats, finite_card, card_of. simpl. tauto. Qed.

Lemma yoy_of_finite (rows : list Row) (cf : option string) (k : Date) :
  Forall finite_row rows -> finite_stats (yoy_of (monthly rows cf) k).
Proof.
  intros Hfin. unfold yoy_of.
  destruct (find (fun m => date_eqb (Bucket.month m) k) (monthly rows cf)) as [b|] eqn:E.
  - apply find_some in E. now apply (monthly_finite rows cf b Hfin).
  - unfold finite_stats, zero_stats. simpl. repeat split; now exists 0%Qc.
Qed.

Lemma buildInsights_finite (rows : list Row) (cf : option string) (i : Insights.t) :
  Forall finite_row rows ->
  buildInsights rows cf = JS.Ok (Some i) ->
  finite_card (Insights.curr i) /\ finite_card (Insights.prev i)
  /\ finite_card (Insights.yoy i).
Proof.
  intros Hfin Hi.
  destruct (Nat.lt_ge_cases (List.length (monthly rows cf)) 2) as [Hlt | Hge].
  { rewrite (buildInsights_few rows cf Hlt) in Hi. discriminate. }
  destruct (buildInsights_enough rows cf Hge) as [curr [prev [msg [top [Hc [Hp [_ [_ E]]]]]]]].
  rewrite E in Hi. injection Hi as <-. simpl.
  destruct (index_last (monthly rows cf) 1) as [c' [Hc' Hcin]]; [lia | simpl; lia |].
  destruct (index_last (monthly rows cf) 2) as [p' [Hp' Hpin]]; [lia | simpl; lia |].
  rewrite Hc in Hc'. injection Hc' as <-.
  rewrite Hp in Hp'. injection Hp' as <-.
  split; [|split]; apply card_of_finite.
  - now apply (monthly_finite rows cf curr).
  - now apply (monthly_finite rows cf prev).
  - now apply yoy_of_finite.
Qed.

(** C5: every card of the MoM and the YoY panel -- Revenue, Orders, ROAS and
    CVR of the current month against the previous month, respectively the
    month one year before -- shows the delta of the convention: the relative
    change when the previous value is not 0, 1 when only the previous value
    is 0, and 0 when both are 0. *)
Theorem insight_cards_delta (rows : list Row) (cf : option string)
    (mom yoy : list DeltaCard.t) (auto : Narratives.t) :
  Forall finite_row rows ->
  InsightsPanel rows cf = JS.Ok (InsightPanels mom yoy auto) ->
  exists i,
    buildInsights rows cf = JS.Ok (Some i)
    /\ map card_input mom = metric_pairs (Insights.curr i) (Insights.prev i)
    /\ map card_input yoy = metric_pairs (Insights.curr i) (Insights.yoy i)
    /\ Forall card_follows_convention (mom ++ yoy).
Proof.
  intros Hfin Hp. unfold InsightsPanel in Hp.
  destruct (buildInsights rows cf) as [[i|]|] eqn:Hi; simpl in Hp; try discriminate.
  injection Hp as <- <- _.
  destruct (buildInsights_finite rows cf i Hfin Hi) as [Hc [Hpv Hy]].
  exists i. split; [reflexivity|]. split; [reflexivity|]. split; [reflexivity|].
  unfold finite_card in Hc, Hpv, Hy. unfold delta_cards.
  repeat constructor; apply DeltaCard_follows; tauto.
Qed.

(** The cards of the sample records. *)
Lemma insight_cards_delta_sample :
  Forall finite_row sample_rows
  /\ exists mom yoy auto,
       InsightsPanel sample_rows None = JS.Ok (InsightPanels mom yoy auto)
       /\ exists i,
    buildInsights sample_rows None = JS.Ok (Some i)
    /\ map card_input mom = metric_pairs (Insights.curr i) (Insights.prev i)
    /\ map card_input yoy = metric_pairs (Insights.curr i) (Insights.yoy i)
    /\ Forall card_follows_convention (mom ++ yoy).
Proof.
  assert (Hfin : Forall finite_row sample_rows).
  { repeat constructor; unfold finite_row; simpl; repeat split; eexists; reflexivity. }
  split; [exact Hfin|].
  destruct (InsightsPanel sample_rows None) as [[note|mom yoy auto]|] eqn:E.
  - vm_compute in E. discriminate E.
  - exists mom, yoy, auto. split; [reflexivity|].
    exact (insight_cards_delta sample_rows None mom yoy auto Hfin E).
  - vm_compute in E. discriminate E.
Defined.

(** ** The watch narrative *)

(** C10: the change reported by the [watchMetric] narrative is
    [(curr.cvr - prev.cvr) / (prev.cvr || 1)]; when the previous month's CVR
    is 0 and the current one is a nonzero rate, it is that rate itself,
    whereas the delta convention gives 1 for the same pair. *)
Theorem watchMetric_change (rows : list Row) (cf : option string) (i : Insights.t)
    (c : Qc) :
  buildInsights rows cf = JS.Ok (Some i) ->
  Card.cvr (Insights.prev i) = JS.zero ->
  Card.cvr (Insights.curr i) = JS.Fin c ->
  c <> 0%Qc ->
  watch_change i
  = JS.div (JS.sub (Card.cvr (Insights.curr i)) (Card.cvr (Insights.prev i)))
      (JS.or_else (Card.cvr (Insights.prev i)) JS.one)
  /\ watch_change i = Card.cvr (Insights.curr i)
  /\ delta (Card.cvr (Insights.curr i)) (Card.cvr (Insights.prev i)) = JS.one.
Proof.
  intros Hi Hprev Hcurr Hc.
  destruct (Nat.lt_ge_cases (List.length (monthly rows cf)) 2) as [Hlt | Hge].
  { rewrite (buildInsights_few rows cf Hlt) in Hi. discriminate. }
  destruct (buildInsights_enough rows cf Hge) as [curr [prev [msg [top [_ [_ [_ [_ E]]]]]]]].
  rewrite E in Hi. injection Hi as <-.
  unfold watch_change in *. simpl in *.
  split; [reflexivity|].
  rewrite Hprev, Hcurr. split.
  - unfold JS.or_else, JS.zero, JS.one, JS.sub. simpl.
    f_equal. field. exact Q_apart_0_1.
  - unfold delta. simpl.
    destruct (JS.is_zero c) eqn:Ez; [|reflexivity].
    apply is_zero_true in Ez. contradiction.
Qed.

(** A previous month without sessions: the narrative reports the current
    CVR of 1/24 as the change. *)
Lemma watchMetric_change_idle :
  exists i c,
    buildInsights idle_rows None = JS.Ok (Some i)
    /\ Card.cvr (Insights.prev i) = JS.zero
    /\ Card.cvr (Insights.curr i) = JS.Fin c
    /\ c <> 0%Qc
    /\ watch_change i
      = JS.div (JS.sub (Card.cvr (Insights.curr i)) (Card.cvr (Insights.prev i)))
          (JS.or_else (Card.cvr (Insights.prev i)) JS.one)
      /\ watch_change i = Card.cvr (Insights.curr i)
      /\ delta (Card.cvr (Insights.curr i)) (Card.cvr (Insights.prev i)) = JS.one.
Proof.
  destruct (buildInsights idle_rows None) as [[i|]|] eqn:E.
  - pose proof E as E'. vm_compute in E'. injection E' as Hi.
    assert (Hprev : Card.cvr (Insights.prev i) = JS.zero).
    { rewrite <- Hi. reflexivity. }
    assert (Hcurr : Card.cvr (Insights.curr i) = JS.Fin (Q2Qc (1 # 24))).
    { rewrite <- Hi. simpl. f_equal. apply Qc_is_canon. reflexivity. }
    assert (Hc : Q2Qc (1 # 24) <> 0%Qc).
    { intros H. apply (f_equal this) in H. discriminate H. }
    exists i, (Q2Qc (1 # 24)).
    split; [reflexivity|]. split; [exact Hprev|]. split; [exact Hcurr|].
    split; [exact Hc|].
    exact (watchMetric_change idle_rows None i (Q2Qc (1 # 24)) E Hprev Hcurr Hc).
  - vm_compute in E. discriminate E.
  - vm_compute in E. discriminate E.
Defined.

(** ** The zero-denominator convention *)

Lemma guarded_ratio (n d : JS.num) :
  JS.is_finite n -> JS.is_finite d -> guarded n d (ratio n d).
Proof.
  intros Hn Hd. split; [now apply ratio_spec|].
  split; [assumption|]. split; [assumption | now apply ratio_finite].
Qed.

Lemma d3_sum_finite (v : list Row) (key : Row -> JS.num) :
  (forall r, finite_row r -> JS.is_finite (key r)) ->
  Forall finite_row v -> JS.is_finite (d3.sum v key).
Proof.
  intros Hkey Hv. rewrite d3_sum_column; [apply column_sum_finite|];
    now apply finite_rows_column.
Qed.

Lemma sum_finite (v : list Row) (key : Row -> JS.num) :
  (forall r, finite_row r -> JS.is_finite (key r)) ->
  Forall finite_row v -> JS.is_finite (sum v key).
Proof. intros Hkey Hv. rewrite sum_d3_sum. now apply d3_sum_finite. Qed.

Lemma monthly_reduce_guarded (cf : option string) (v : list Row) :
  Forall finite_row v ->
  guarded (Stats.orders (monthly_reduce cf v)) (Stats.sessions (monthly_reduce cf v))
    (Stats.cvr (monthly_reduce cf v))
  /\ guarded (Stats.revenue (monthly_reduce cf v)) (Stats.spend (monthly_reduce cf v))
       (Stats.roas (monthly_reduce cf v)).
Proof.
  intros Hv. destruct (monthly_reduce_finite cf v Hv) as [Hr [Ho [Hs [Hsp _]]]].
  unfold monthly_reduce in *. simpl in *. split; now apply guarded_ratio.
Qed.

Lemma market_entry_guarded (cf : option string) (rows : list Row)
    (g : string * list Row) (e : MarketGroup.t) :
  Forall finite_row rows ->
  In g (d3.group String.eqb rows market_key) ->
  market_of_group cf g = JS.Ok e ->
  guarded (MarketEntry.revenue (market_with_ratios e))
    (MarketEntry.spend (market_with_ratios e)) (MarketEntry.roas (market_with_ratios e))
  /\ guarded (MarketEntry.orders (market_with_ratios e))
       (MarketEntry.sessions (market_with_ratios e))
       (MarketEntry.cvr (market_with_ratios e)).
Proof.
  intros Hfin Hg He.
  destruct (group_nonempty String.eqb market_key rows g string_eqb_spec Hg) as [Hv _].
  assert (Hfv : Forall finite_row (snd g)).
  { rewrite Hv. now apply Forall_filter_keep. }
  destruct (market_of_group_inv cf g e He) as [_ [_ [Hr [Ho [Hs Hsp]]]]].
  unfold market_with_ratios. simpl. rewrite Hr, Ho, Hs, Hsp.
  split; apply guarded_ratio;
    try apply focus_spend_finite; apply sum_finite; try assumption;
    unfold finite_row; tauto.
Qed.

Lemma Forall2_right_Forall {A B} (R : A -> B -> Prop) (P : B -> Prop)
    (l : list A) (l' : list B) :
  (forall x y, In x l -> R x y -> P y) -> Forall2 R l l' -> Forall P l'.
Proof.
  intros H HF. induction HF as [|x y l l' Hxy _ IH]; constructor.
  - apply (H x y); [now left | assumption].
  - apply IH. intros x' y' Hx'. apply H. now right.
Qed.

Lemma buildInsights_no_throw (rows : list Row) (cf : option string) :
  buildInsights rows cf <> JS.TypeError.
Proof.
  destruct (Nat.lt_ge_cases (List.length (monthly rows cf)) 2) as [Hlt | Hge].
  - rewrite (buildInsights_few rows cf Hlt). discriminate.
  - destruct (buildInsights_enough rows cf Hge) as [curr [prev [msg [top [_ [_ [_ [_ E]]]]]]]].
    rewrite E. discriminate.
Qed.

Lemma ratio_convention (n d : JS.num) : zero_convention n d (ratio n d).
Proof.
  unfold zero_convention, ratio. split; [|split].
  - intros ->. reflexivity.
  - intros Hd Hne. destruct (JS.truthy d) eqn:E; [reflexivity|].
    exfalso. apply Hne. now apply (truthy_finite_zero d Hd).
  - intros Hn Hd. destruct (ratio_finite n d Hn Hd) as [q Hq].
    unfold ratio in Hq. rewrite Hq. discriminate.
Qed.

(** C9, as stated, fails in double precision: two records whose revenue and
    social spend are 1e308 each have finite fields, but both sums overflow
    to [Infinity] and the overall ROAS is [Infinity / Infinity], NaN. *)
Lemma ratio_nan_on_overflow :
  forallb IEEE.finite_row IEEE.huge_rows = true
  /\ exists m,
       IEEE.derive IEEE.huge_rows None = JS.Ok m
       /\ PrimFloat.is_nan (IEEE.Metrics.roas m) = true.
Proof.
  split; [vm_compute; reflexivity|].
  destruct (IEEE.derive IEEE.huge_rows None) as [m|] eqn:E;
    [|vm_compute in E; discriminate E].
  exists m. split; [reflexivity|].
  vm_compute in E. injection E as <-. vm_compute. reflexivity.
Qed.

(** C9 (amended): neither [derive] nor [buildInsights] throws, and every
    ratio they compute -- AOV, CVR and ROAS of the totals, ROAS per date,
    CPC, CTR and ROAS per channel, ROAS and CVR per market, CVR and ROAS per
    month -- is 0 when its denominator is 0, the quotient over any other
    finite denominator, and not NaN as long as the two sums it is computed
    from are finite. *)
Theorem ratios_zero_denominator (rows : list Row) (cf : option string) :
  exists m,
    derive rows cf = JS.Ok m
    /\ zero_convention (Metrics.totalRevenue m) (Metrics.totalOrders m) (Metrics.aov m)
    /\ zero_convention (Metrics.totalOrders m) (Metrics.totalSessions m) (Metrics.cvr m)
    /\ zero_convention (Metrics.totalRevenue m) (spend_total rows) (Metrics.roas m)
    /\ Forall (fun kv => zero_convention (DateAgg.revenue (snd kv)) (DateAgg.spend (snd kv))
                           (DateAgg.roas (snd kv)))
         (byDate_rollups rows cf)
    /\ Forall (fun e =>
                 zero_convention (ChannelEntry.spend e) (ChannelEntry.clicks e)
                   (ChannelEntry.cpc e)
                 /\ zero_convention (ChannelEntry.clicks e) (ChannelEntry.impressions e)
                      (ChannelEntry.ctr e)
                 /\ zero_convention (Metrics.totalRevenue m) (ChannelEntry.spend e)
                      (ChannelEntry.roas e))
         (Metrics.channelArr m)
    /\ Forall (fun e =>
                 zero_convention (MarketEntry.revenue e) (MarketEntry.spend e)
                   (MarketEntry.roas e)
                 /\ zero_convention (MarketEntry.orders e) (MarketEntry.sessions e)
                      (MarketEntry.cvr e))
         (Metrics.byMarket m)
    /\ Forall (fun b =>
                 zero_convention (Stats.orders (Bucket.v b)) (Stats.sessions (Bucket.v b))
                   (Stats.cvr (Bucket.v b))
                 /\ zero_convention (Stats.revenue (Bucket.v b)) (Stats.spend (Bucket.v b))
                      (Stats.roas (Bucket.v b)))
         (monthly rows cf)
    /\ buildInsights rows cf <> JS.TypeError.
Proof.
  destruct (derive_eq rows cf) as [groups [HF H]].
  eexists. split; [exact H|].
  assert (Hmonthly : Forall (fun b =>
                 zero_convention (Stats.orders (Bucket.v b)) (Stats.sessions (Bucket.v b))
                   (Stats.cvr (Bucket.v b))
                 /\ zero_convention (Stats.revenue (Bucket.v b)) (Stats.spend (Bucket.v b))
                      (Stats.roas (Bucket.v b)))
              (monthly rows cf)).
  { apply Forall_forall. intros b Hb. apply monthly_In in Hb.
    destruct Hb as [r [_ ->]]. simpl Bucket.v. unfold monthly_reduce. simpl.
    split; apply ratio_convention. }
  assert (Hrollups : Forall (fun kv => zero_convention (DateAgg.revenue (snd kv))
                                         (DateAgg.spend (snd kv)) (DateAgg.roas (snd kv)))
                       (byDate_rollups rows cf)).
  { unfold byDate_rollups.
    rewrite (rollups_members date_eqb date _ rows date_eqb_spec).
    apply Forall_forall. intros kv Hkv. apply in_map_iff in Hkv.
    destruct Hkv as [k [<- _]]. simpl snd. unfold byDate_reduce. simpl.
    apply ratio_convention. }
  destruct rows as [|r0 rows0].
  { cbv beta iota.
    unfold Metrics.totalRevenue, Metrics.totalOrders, Metrics.totalSessions, Metrics.aov,
      Metrics.cvr, Metrics.roas, Metrics.byDate, Metrics.channelArr, Metrics.byMarket.
    split; [exact (ratio_convention JS.zero JS.zero)|].
    split; [exact (ratio_convention JS.zero JS.zero)|].
    split.
    { assert (E : spend_total [] = JS.zero).
      { unfold spend_total, sum, d3.sum. simpl. unfold JS.zero. now f_equal. }
      rewrite E. exact (ratio_convention JS.zero JS.zero). }
    split; [exact Hrollups|].
    split; [constructor|]. split; [constructor|].
    split; [exact Hmonthly | apply buildInsights_no_throw]. }
  set (rows := r0 :: rows0) in *.
  cbv beta iota.
  unfold Metrics.totalRevenue, Metrics.totalOrders, Metrics.totalSessions, Metrics.aov,
    Metrics.cvr, Metrics.roas, Metrics.byDate, Metrics.channelArr, Metrics.byMarket.
  split; [apply ratio_convention|]. split; [apply ratio_convention|].
  split; [apply ratio_convention|].
  split; [exact Hrollups|].
  split.
  { unfold derive_channelArr, derive_channel. simpl.
    repeat constructor; simpl; apply ratio_convention. }
  split.
  { apply (Permutation_Forall (Permutation_sym (sort_perm _ _))).
    apply Forall_map. apply Forall_forall. intros eg _.
    unfold market_with_ratios. simpl. split; apply ratio_convention. }
  split; [exact Hmonthly | apply buildInsights_no_throw].
Qed.

(** ** The date range and the selectors *)

Lemma date_gtb_lt (a b : Date) : date_gtb a b = true <-> date_lt b a.
Proof.
  unfold date_gtb. pose proof (date_compare_spec a b) as H.
  destruct (date_compare a b); split; intros H'; try discriminate; try reflexivity;
    try assumption; exfalso.
  - subst. now apply (date_lt_irrefl b).
  - apply (date_lt_irrefl a). now apply (date_lt_trans a b a).
Qed.

Lemma date_ltb_lt (a b : Date) : date_ltb a b = true <-> date_lt a b.
Proof.
  unfold date_ltb. pose proof (date_compare_spec a b) as H.
  destruct (date_compare a b); split; intros H'; try discriminate; try reflexivity;
    try assumption; exfalso.
  - subst. now apply (date_lt_irrefl b).
  - apply (date_lt_irrefl a). now apply (date_lt_trans a b a).
Qed.

Lemma date_le_refl (a : Date) : date_le a a.
Proof. now right. Qed.

Lemma date_le_total (a b : Date) : date_le a b \/ date_lt b a.
Proof.
  pose proof (date_compare_spec a b) as H. unfold date_le.
  destruct (date_compare a b); auto.
Qed.

(** The loop of [d3.extent] keeps the least and the greatest date seen. *)
Lemma extent_fold {A} (valueof : A -> Date) (l : list A) (mn mx : Date) :
  exists mn' mx',
    fold_left (fun acc d => extent_step acc (valueof d)) l (Some (mn, mx)) = Some (mn', mx')
    /\ date_le mn' mn /\ date_le mx mx'
    /\ (mn' = mn \/ In mn' (map valueof l))
    /\ (mx' = mx \/ In mx' (map valueof l))
    /\ (forall d, In d l -> date_le mn' (valueof d) /\ date_le (valueof d) mx').
Proof.
  revert mn mx. induction l as [|x l IH]; intros mn mx; simpl.
  - exists mn, mx. repeat split; auto using date_le_refl; contradiction.
  - set (mn1 := if date_gtb mn (valueof x) then valueof x else mn).
    set (mx1 := if date_ltb mx (valueof x) then valueof x else mx).
    assert (Hmn1 : date_le mn1 mn /\ date_le mn1 (valueof x)
                   /\ (mn1 = mn \/ mn1 = valueof x)).
    { unfold mn1. destruct (date_gtb mn (valueof x)) eqn:E.
      - apply date_gtb_lt in E. repeat split; auto using date_le_refl. now left.
      - repeat split; auto using date_le_refl.
        destruct (date_le_total mn (valueof x)) as [H | H]; [assumption|].
        apply date_gtb_lt in H. congruence. }
    assert (Hmx1 : date_le mx mx1 /\ date_le (valueof x) mx1
                   /\ (mx1 = mx \/ mx1 = valueof x)).
    { unfold mx1. destruct (date_ltb mx (valueof x)) eqn:E.
      - apply date_ltb_lt in E. repeat split; auto using date_le_refl. now left.
      - repeat split; auto using date_le_refl.
        destruct (date_le_total (valueof x) mx) as [H | H]; [assumption|].
        apply date_ltb_lt in H. congruence. }
    destruct (IH mn1 mx1) as [mn' [mx' [E [H1 [H2 [H3 [H4 H5]]]]]]].
    destruct Hmn1 as [Ha [Hb Hc]]. destruct Hmx1 as [Hd [He Hf]].
    exists mn', mx'. split; [exact E|].
    split; [now apply (date_le_trans mn' mn1 mn)|].
    split; [now apply (date_le_trans mx mx1 mx')|].
    split; [destruct H3 as [-> | H3]; [destruct Hc as [-> | ->]; auto | auto]|].
    split; [destruct H4 as [-> | H4]; [destruct Hf as [-> | ->]; auto | auto]|].
    intros d [<- | Hd'].
    + split; [now apply (date_le_trans mn' mn1) | now apply (date_le_trans _ mx1)].
    + now apply H5.
Qed.

Lemma d3_extent_bounds {A} (valueof : A -> Date) (x : A) (l : list A) :
  exists mn mx,
    d3_extent (x :: l) valueof = Some (mn, mx)
    /\ In mn (map valueof (x :: l)) /\ In mx (map valueof (x :: l))
    /\ (forall d, In d (x :: l) -> date_le mn (valueof d) /\ date_le (valueof d) mx).
Proof.
  unfold d3_extent. simpl fold_left.
  destruct (extent_fold valueof l (valueof x) (valueof x))
    as [mn [mx [E [H1 [H2 [H3 [H4 H5]]]]]]].
  exists mn, mx. split; [exact E|].
  split; [simpl; destruct H3 as [-> | H3]; auto|].
  split; [simpl; destruct H4 as [-> | H4]; auto|].
  intros d [<- | Hd]; [split; assumption | now apply H5].
Qed.

Lemma filter_all {A} (f : A -> bool) (l : list A) :
  (forall x, In x l -> f x = true) -> filter f l = l.
Proof.
  induction l as [|x l IH]; intros H; simpl; [reflexivity|].
  rewrite (H x (or_introl eq_refl)). f_equal. apply IH. intros y Hy. apply H. now right.
Qed.

Lemma filter_none {A} (f : A -> bool) (l : list A) :
  (forall x, In x l -> f x = false) -> filter f l = [].
Proof.
  induction l as [|x l IH]; intros H; simpl; [reflexivity|].
  rewrite (H x (or_introl eq_refl)). apply IH. intros y Hy. apply H. now right.
Qed.

(** X1: Reset selects every record again: the date range becomes the
    earliest and the latest date present in the data, market and channel
    become "All", and the filter then returns the rows unchanged. *)
Theorem reset_shows_all (rows : list Row) (st : FilterState) :
  rowsFiltered rows (reset rows st) = rows
  /\ selectedMarket (reset rows st) = "All"%string
  /\ channelFocus (reset rows st) = None
  /\ match rows with
     | [] => startDate (reset rows st) = startDate st
             /\ endDate (reset rows st) = endDate st
     | _ :: _ =>
         exists mn mx,
           startDate (reset rows st) = Some mn /\ endDate (reset rows st) = Some mx
           /\ In mn (map date rows) /\ In mx (map date rows)
           /\ forall r, In r rows -> date_le mn (date r) /\ date_le (date r) mx
     end.
Proof.
  destruct rows as [|r0 rows0].
  - repeat split.
  - destruct (d3_extent_bounds date r0 rows0) as [mn [mx [E [Hmn [Hmx Hb]]]]].
    assert (Hs : startDate (reset (r0 :: rows0) st) = Some mn).
    { unfold reset. cbv zeta. simpl startDate. now rewrite E. }
    assert (He : endDate (reset (r0 :: rows0) st) = Some mx).
    { unfold reset. cbv zeta. simpl endDate. now rewrite E. }
    split; [|split; [reflexivity | split; [reflexivity|]]].
    + unfold rowsFiltered. apply filter_all. intros r Hr. cbv zeta.
      apply rowsFiltered_keep. unfold passes. rewrite Hs, He.
      destruct (Hb r Hr) as [H1 H2]. repeat split; auto.
    + exists mn, mx. repeat split; try assumption; now apply Hb.
Qed.

(** X2: the initial range, set when the data arrives and no date has been
    chosen yet, keeps every record too, while a date chosen before is
    left alone. *)
Theorem init_range_keeps_all (rows : list Row) (st : FilterState) :
  selectedMarket st = "All"%string ->
  startDate st = None ->
  endDate st = None ->
  rowsFiltered rows (init_range rows st) = rows
  /\ forall st' s e,
       startDate st' = Some s -> endDate st' = Some e ->
       startDate (init_range rows st') = Some s /\ endDate (init_range rows st') = Some e.
Proof.
  intros Hm Hs He. split.
  - destruct rows as [|r0 rows0]; [reflexivity|].
    destruct (d3_extent_bounds date r0 rows0) as [mn [mx [E [_ [_ Hb]]]]].
    unfold rowsFiltered. apply filter_all. intros r Hr. cbv zeta.
    apply rowsFiltered_keep. unfold passes, init_range. rewrite Hs, He, E. simpl.
    destruct (Hb r Hr) as [H1 H2]. repeat split; auto.
  - intros st' s e Hs' He'. destruct rows as [|r0 rows0]; simpl.
    + now split.
    + rewrite Hs', He'. now split.
Qed.

(** A pristine selection on the sample records. *)
Lemma init_range_keeps_all_sample :
  rowsFiltered sample_rows (init_range sample_rows (mkFilterState None None "All" "All"))
  = sample_rows
  /\ forall st' s e,
       startDate st' = Some s -> endDate st' = Some e ->
       startDate (init_range sample_rows st') = Some s
       /\ endDate (init_range sample_rows st') = Some e.
Proof.
  exact (init_range_keeps_all sample_rows (mkFilterState None None "All" "All")
           eq_refl eq_refl eq_refl).
Defined.

(** X3: a start date after the end date selects nothing. *)
Theorem rowsFiltered_inverted_range (rows : list Row) (st : FilterState) (s e : Date) :
  startDate st = Some s ->
  endDate st = Some e ->
  date_lt e s ->
  rowsFiltered rows st = [].
Proof.
  intros Hs He Hlt. unfold rowsFiltered. apply filter_none. intros r _. cbv zeta.
  destruct (_ && _) eqn:E; [|reflexivity].
  apply rowsFiltered_keep in E. unfold passes in E. rewrite Hs, He in E.
  destruct E as [H1 [H2 _]]. exfalso.
  assert (Hse : date_le s e) by now apply (date_le_trans s (date r) e).
  destruct Hse as [Hse | ->].
  - apply (date_lt_irrefl e). now apply (date_lt_trans e s e).
  - now apply (date_lt_irrefl e).
Qed.

(** February before January on the sample records. *)
Lemma rowsFiltered_inverted_range_sample :
  rowsFiltered sample_rows
    (mkFilterState (Some (mkDate 2024 1 1)) (Some (mkDate 2024 0 1)) "All" "All") = [].
Proof.
  apply (rowsFiltered_inverted_range sample_rows _ (mkDate 2024 1 1) (mkDate 2024 0 1));
    [reflexivity | reflexivity | unfold date_lt; simpl; lia].
Defined.

Lemma string_compare_trans (x y z : string) :
  String.compare x y <> Gt -> String.compare y z <> Gt -> String.compare x z <> Gt.
Proof.
  revert y z. induction x as [|a x IH]; intros [|b y] [|c z]; simpl; try congruence.
  unfold Ascii.compare.
  destruct (N.compare_spec (Ascii.N_of_ascii a) (Ascii.N_of_ascii b)) as [Eab | Lab | Gab];
    destruct (N.compare_spec (Ascii.N_of_ascii b) (Ascii.N_of_ascii c)) as [Ebc | Lbc | Gbc];
    destruct (N.compare_spec (Ascii.N_of_ascii a) (Ascii.N_of_ascii c)) as [Eac | Lac | Gac];
    try congruence; try lia.
  apply IH.
Qed.

Lemma string_cmp_le (x y : string) : string_cmp x y <= 0 <-> String.compare x y <> Gt.
Proof.
  unfold string_cmp. destruct (String.compare x y); split; intros; try lia; congruence.
Qed.

Lemma string_cmp_total (x y : string) : string_cmp x y > 0 -> string_cmp y x <= 0.
Proof.
  unfold string_cmp. rewrite (String.compare_antisym y x).
  destruct (String.compare x y); simpl; lia.
Qed.

Lemma new_Set_first_keys (values : list string) :
  new_Set values = first_keys String.eqb values.
Proof. reflexivity. Qed.

Lemma market_key_not_All (r : Row) : market_key r <> "All"%string.
Proof.
  unfold market_key. destruct (city r) as [|a [|b [|c [|d t]]]]; simpl; intros H;
    try discriminate H; injection H; intros; try discriminate.
Qed.

Lemma sorted_strings_strict (l : list string) :
  StronglySorted (fun a b => string_cmp a b <= 0) l -> NoDup l ->
  StronglySorted (fun a b => String.compare a b = Lt) l.
Proof.
  induction 1 as [|x l Hl IH Hx]; intros Hnd; [constructor|].
  inversion Hnd as [|? ? Hnotin Hnd']; subst.
  constructor; [now apply IH|].
  rewrite Forall_forall in Hx |- *. intros y Hy.
  specialize (Hx y Hy). apply string_cmp_le in Hx.
  destruct (String.compare x y) eqn:E; try reflexivity; try congruence.
  apply String.compare_eq_iff in E. subst y. contradiction.
Qed.

(** X4: the market selector offers "All" first, then every market of the
    data exactly once in ascending order of character codes; no market is
    ever called "All", so the sentinel is unambiguous. *)
Theorem markets_options (rows : list Row) :
  hd_error (markets rows) = Some "All"%string
  /\ (forall k, In k (markets rows) <->
                k = "All"%string \/ exists r, In r rows /\ market_key r = k)
  /\ (forall r, In r rows -> market_key r <> "All"%string)
  /\ NoDup (markets rows)
  /\ StronglySorted (fun a b => String.compare a b = Lt) (tl (markets rows)).
Proof.
  unfold markets. rewrite new_Set_first_keys.
  set (keys := first_keys String.eqb (map market_key rows)).
  assert (Hin : forall k, In k (JS.sort string_cmp keys) <->
                          exists r, In r rows /\ market_key r = k).
  { intros k. split.
    - intros H. apply (Permutation_in _ (sort_perm _ _)) in H.
      apply -> (first_keys_In String.eqb string_eqb_spec) in H.
      apply in_map_iff in H. destruct H as [r [E Hr]]. now exists r.
    - intros [r [Hr E]]. apply (Permutation_in _ (Permutation_sym (sort_perm _ _))).
      apply (first_keys_In String.eqb string_eqb_spec). subst k. now apply in_map. }
  assert (Hnd : NoDup (JS.sort string_cmp keys)).
  { apply (Permutation_NoDup (Permutation_sym (sort_perm _ _))).
    apply (first_keys_NoDup String.eqb string_eqb_spec). }
  split; [reflexivity|]. split; [|split; [|split]].
  - intros k. simpl. rewrite Hin. split; intros [H | H]; auto.
  - intros r _. apply market_key_not_All.
  - constructor; [|exact Hnd].
    intros H. apply Hin in H. destruct H as [r [_ E]]. now apply (market_key_not_All r).
  - simpl tl.
    assert (Hs : StronglySorted (fun a b => string_cmp a b <= 0) (JS.sort string_cmp keys)).
    { apply sort_sorted.
      - apply string_cmp_total.
      - intros x y z. rewrite !string_cmp_le. apply string_compare_trans. }
    now apply sorted_strings_strict.
Qed.

(** X5: with a market selected, the market breakdown of the dashboard has
    at most one entry, for that market; it is empty only when no record
    passes the filter. *)
Theorem selected_market_single (rows : list Row) (st : FilterState) (m : Metrics.t) :
  selectedMarket st <> "All"%string ->
  metrics rows st = JS.Ok m ->
  (rowsFiltered rows st = [] /\ Metrics.byMarket m = [])
  \/ (exists e, Metrics.byMarket m = [e] /\ MarketEntry.market e = selectedMarket st).
Proof.
  intros Hsel Hm. unfold metrics in Hm.
  set (fr := rowsFiltered rows st) in *.
  assert (Hkey : forall r, In r fr -> market_key r = selectedMarket st).
  { intros r Hr. unfold fr, rowsFiltered in Hr. apply filter_In in Hr.
    destruct Hr as [_ Hk]. cbv zeta in Hk. apply rowsFiltered_keep in Hk.
    destruct Hk as [_ [_ [Hk | Hk]]]; [contradiction | exact Hk]. }
  destruct (derive_eq fr (channelFocus st)) as [groups [HF H]].
  rewrite H in Hm. injection Hm as <-.
  destruct fr as [|r0 fr0] eqn:Efr; [left; split; reflexivity|].
  right. cbv beta iota. unfold Metrics.byMarket.
  rewrite (group_members String.eqb market_key (r0 :: fr0) string_eqb_spec) in HF.
  pose proof (first_keys_NoDup String.eqb string_eqb_spec
                (map market_key (r0 :: fr0))) as Hnd.
  pose proof (first_keys_In String.eqb string_eqb_spec
                (map market_key (r0 :: fr0))) as Hin.
  assert (Hall : forall k, In k (first_keys String.eqb (map market_key (r0 :: fr0))) ->
                           k = selectedMarket st).
  { intros k Hk. apply Hin in Hk. apply in_map_iff in Hk.
    destruct Hk as [r [<- Hr]]. now apply Hkey. }
  assert (Hone : In (market_key r0) (first_keys String.eqb (map market_key (r0 :: fr0)))).
  { apply Hin. now left. }
  destruct (first_keys String.eqb (map market_key (r0 :: fr0))) as [|k [|k' ks]].
  - contradiction.
  - simpl in HF. inversion HF as [|g e l l' Hge Hrest]; subst.
    inversion Hrest; subst.
    exists (market_with_ratios e). split; [reflexivity|].
    destruct (market_of_group_inv _ _ _ Hge) as [_ [Hk _]].
    change (MarketEntry.market (market_with_ratios e)) with (MarketGroup.market e).
    rewrite Hk. simpl. apply Hall. now left.
  - exfalso. inversion Hnd as [|? ? Hna _]; subst. apply Hna. left.
    transitivity (selectedMarket st);
      [apply Hall; right; now left | symmetry; apply Hall; now left].
Qed.

(** Dallas selected on the sample records. *)
Lemma selected_market_single_sample :
  exists m,
    metrics sample_rows (mkFilterState None None "Dallas, TX" "All") = JS.Ok m
    /\ ((rowsFiltered sample_rows (mkFilterState None None "Dallas, TX" "All") = []
         /\ Metrics.byMarket m = [])
        \/ (exists e, Metrics.byMarket m = [e]
                      /\ MarketEntry.market e = "Dallas, TX"%string)).
Proof.
  destruct (metrics sample_rows (mkFilterState None None "Dallas, TX" "All"))
    as [m|] eqn:E.
  - exists m. split; [reflexivity|].
    apply (selected_market_single sample_rows
             (mkFilterState None None "Dallas, TX" "All") m); [discriminate | exact E].
  - vm_compute in E. discriminate E.
Defined.

(** ** The market breakdown *)

Section SortOn.
Context {A : Type} (cmp : A -> A -> Z) (P : A -> Prop).
Hypothesis cmp_total : forall x y, P x -> P y -> cmp x y > 0 -> cmp y x <= 0.
Hypothesis cmp_trans :
  forall x y z, P x -> P y -> P z -> cmp x y <= 0 -> cmp y z <= 0 -> cmp x z <= 0.

Lemma insert_sorted_on (x : A) (l : list A) :
  P x -> Forall P l ->
  StronglySorted (fun a b => cmp a b <= 0) l ->
  StronglySorted (fun a b => cmp a b <= 0) (JS.insert_sorted cmp x l).
Proof.
  intros Px HP Hs. induction Hs as [|y l Hl IH Hy]; simpl.
  - repeat constructor.
  - inversion HP as [|? ? Py HPl]; subst.
    destruct (cmp x y >? 0) eqn:E.
    + apply Z.gtb_lt in E. constructor; [now apply IH|].
      apply (Permutation_Forall (Permutation_sym (insert_sorted_perm cmp x l))).
      constructor; [apply cmp_total; try assumption; lia | exact Hy].
    + assert (Hxy : cmp x y <= 0).
      { destruct (Z.gtb_spec (cmp x y) 0); [discriminate | lia]. }
      constructor; [now constructor|].
      constructor; [exact Hxy|].
      rewrite Forall_forall in Hy, HPl |- *. intros z Hz.
      apply (cmp_trans x y z); auto.
Qed.

Lemma sort_sorted_on (l : list A) :
  Forall P l -> StronglySorted (fun a b => cmp a b <= 0) (JS.sort cmp l).
Proof.
  unfold JS.sort. induction 1 as [|x l Px HP IH]; simpl.
  - constructor.
  - apply insert_sorted_on; try assumption.
    apply (Permutation_Forall (Permutation_sym (sort_perm cmp l))). exact HP.
Qed.
End SortOn.

Lemma lt_Fin (x y : Qc) : JS.lt (JS.Fin x) (JS.Fin y) = true <-> (x < y)%Qc.
Proof.
  simpl. rewrite Qclt_alt. destruct (x ?= y)%Qc; split; congruence.
Qed.

Lemma descending_le (a b : JS.num) :
  JS.is_finite a -> JS.is_finite b -> (d3.descending a b <= 0 <-> num_le b a).
Proof.
  intros [x ->] [y ->]. unfold d3.descending, JS.gt, num_le.
  destruct (JS.lt (JS.Fin y) (JS.Fin x)) eqn:E1.
  - apply lt_Fin in E1. split; [intros _ | lia].
    exists y, x. repeat split. now apply Qclt_le_weak.
  - destruct (JS.lt (JS.Fin x) (JS.Fin y)) eqn:E2.
    + apply lt_Fin in E2. split; [lia|].
      intros [y' [x' [Ey [Ex Hle]]]]. injection Ey as <-. injection Ex as <-.
      exfalso. now apply (Qcle_not_lt _ _ Hle).
    + split; [intros _ | lia]. exists y, x. repeat split.
      apply Qcnot_lt_le. intros H. apply lt_Fin in H. congruence.
Qed.

Lemma num_le_trans (a b c : JS.num) : num_le a b -> num_le b c -> num_le a c.
Proof.
  intros [x [y [-> [-> H1]]]] [y' [z [E [-> H2]]]]. injection E as <-.
  exists x, z. repeat split. now apply (Qcle_trans _ y).
Qed.

Lemma market_of_group_first (cf : option string) (g : string * list Row) (e : MarketGroup.t) :
  market_of_group cf g = JS.Ok e ->
  exists r0 rest,
    snd g = r0 :: rest /\ MarketGroup.city e = city r0 /\ MarketGroup.state e = state r0.
Proof.
  destruct g as [k [|r0 v]]; unfold market_of_group; simpl; [discriminate|].
  intros H. injection H as <-. exists r0, v. repeat split.
Qed.

Lemma byMarket_finite_revenue (rows : list Row) (cf : option string)
    (groups : list MarketGroup.t) :
  Forall finite_row rows ->
  Forall2 (fun g e => market_of_group cf g = JS.Ok e)
    (d3.group String.eqb rows market_key) groups ->
  Forall (fun e => JS.is_finite (MarketEntry.revenue e)) (map market_with_ratios groups).
Proof.
  intros Hfin HF. apply Forall_map.
  apply (Forall2_right_Forall _ _ _ _
           (fun g e Hg He =>
              proj1 (proj2 (proj1 (market_entry_guarded cf rows g e Hfin Hg He)))) HF).
Qed.

Lemma sort_by_revenue_descending (l : list MarketEntry.t) :
  Forall (fun e => JS.is_finite (MarketEntry.revenue e)) l ->
  StronglySorted (fun a b => num_le (MarketEntry.revenue b) (MarketEntry.revenue a))
    (JS.sort (fun a b => d3.descending (MarketEntry.revenue a) (MarketEntry.revenue b)) l).
Proof.
  intros Hrev.
  set (cmp := fun a b => d3.descending (MarketEntry.revenue a) (MarketEntry.revenue b)).
  assert (Hs : StronglySorted (fun a b => cmp a b <= 0) (JS.sort cmp l)).
  { apply (sort_sorted_on cmp (fun e => JS.is_finite (MarketEntry.revenue e)));
      [| | exact Hrev].
    - intros x y Hx Hy. unfold cmp, d3.descending, JS.gt.
      destruct (JS.lt (MarketEntry.revenue y) (MarketEntry.revenue x)) eqn:E1; [lia|].
      destruct (JS.lt (MarketEntry.revenue x) (MarketEntry.revenue y)) eqn:E2; lia.
    - intros x y z Hx Hy Hz. unfold cmp. rewrite !descending_le by assumption.
      intros H1 H2. now apply (num_le_trans _ (MarketEntry.revenue y)). }
  assert (Hfs : Forall (fun e => JS.is_finite (MarketEntry.revenue e)) (JS.sort cmp l)).
  { apply (Permutation_Forall (Permutation_sym (sort_perm _ _))). exact Hrev. }
  induction Hs as [|x l' Hl IH Hx]; [constructor|].
  inversion Hfs as [|? ? Fx Fl]; subst.
  constructor; [now apply IH|].
  rewrite Forall_forall in Hx, Fl |- *. intros y Hy.
  apply descending_le; auto. now apply Hx.
Qed.

(** X6: on validated records [derive] returns and its market entries are in
    descending order of revenue. *)
Theorem byMarket_descending (rows : list Row) (cf : option string) :
  Forall finite_row rows ->
  exists m,
    derive rows cf = JS.Ok m
    /\ StronglySorted
         (fun a b => num_le (MarketEntry.revenue b) (MarketEntry.revenue a))
         (Metrics.byMarket m).
Proof.
  intros Hfin. destruct (derive_eq rows cf) as [groups [HF H]].
  eexists. split; [exact H|].
  destruct rows as [|r0 rows0]; [constructor|].
  cbv beta iota. unfold Metrics.byMarket.
  apply sort_by_revenue_descending.
  exact (byMarket_finite_revenue _ cf groups Hfin HF).
Qed.

(** The market entries of the sample records. *)
Lemma byMarket_descending_sample :
  Forall finite_row sample_rows
  /\ exists m,
       derive sample_rows None = JS.Ok m
       /\ StronglySorted
            (fun a b => num_le (MarketEntry.revenue b) (MarketEntry.revenue a))
            (Metrics.byMarket m).
Proof.
  assert (Hfin : Forall finite_row sample_rows).
  { repeat constructor; unfold finite_row; simpl; repeat split; eexists; reflexivity. }
  split; [exact Hfin|]. exact (byMarket_descending sample_rows None Hfin).
Defined.

(** X7: on validated records every market of the input has an entry, and an
    entry is named after the city and state of its records and carries
    their revenue, orders, sessions and spend (the focused channel's column,
    or the three columns together), with ROAS and CVR by the zero-denominator
    convention. *)
Theorem byMarket_entries (rows : list Row) (cf : option string) :
  Forall finite_row rows ->
  exists m,
    derive rows cf = JS.Ok m
    /\ (forall r, In r rows ->
          exists e, In e (Metrics.byMarket m) /\ MarketEntry.market e = market_key r)
    /\ (forall e, In e (Metrics.byMarket m) ->
          let v := in_market (MarketEntry.market e) rows in
          MarketEntry.market e = (MarketEntry.city e ++ ", " ++ MarketEntry.state e)%string
          /\ MarketEntry.revenue e = column_sum revenue v
          /\ MarketEntry.orders e = column_sum online_orders v
          /\ MarketEntry.sessions e = column_sum sessions v
          /\ spec_spend cf v (MarketEntry.spend e)
          /\ spec_ratio (MarketEntry.revenue e) (MarketEntry.spend e) (MarketEntry.roas e)
          /\ spec_ratio (MarketEntry.orders e) (MarketEntry.sessions e)
               (MarketEntry.cvr e)).
Proof.
  intros Hfin. destruct (derive_eq rows cf) as [groups [HF H]].
  eexists. split; [exact H|].
  destruct rows as [|r0 rows0].
  { cbv beta iota. simpl. split; intros; contradiction. }
  set (rows := r0 :: rows0) in *.
  cbv beta iota. unfold Metrics.byMarket. split.
  - intros r Hr.
    assert (Hk : In (market_key r) (map fst (d3.group String.eqb rows market_key))).
    { rewrite (group_members String.eqb market_key rows string_eqb_spec).
      rewrite map_map. rewrite (map_ext _ (fun k : string => k)) by reflexivity.
      rewrite map_id.
      apply (first_keys_In String.eqb string_eqb_spec). now apply in_map. }
    rewrite <- (Forall2_map_eq _ fst MarketGroup.market _ _
                  (fun g e Hge => proj1 (proj2 (market_of_group_inv cf g e Hge))) HF) in Hk.
    apply in_map_iff in Hk. destruct Hk as [eg [Ek Heg]].
    exists (market_with_ratios eg). split; [|exact Ek].
    apply (Permutation_in _ (Permutation_sym (sort_perm _ _))). now apply in_map.
  - intros e He. apply (Permutation_in _ (sort_perm _ _)) in He.
    apply in_map_iff in He. destruct He as [eg [<- Heg]].
    destruct (Forall2_In_right _ _ _ _ HF Heg) as [g [Hg Hge]].
    destruct (market_of_group_inv cf g eg Hge) as [_ [Hk [Hr [Ho [Hs Hsp]]]]].
    destruct (market_of_group_first cf g eg Hge) as [r1 [rest [Hv1 [Hc Hst]]]].
    destruct (group_nonempty String.eqb market_key rows g string_eqb_spec Hg) as [Hv _].
    destruct (market_entry_guarded cf rows g eg Hfin Hg Hge) as [[G1 _] [G2 _]].
    assert (Hfv : Forall finite_row (snd g)).
    { rewrite Hv. now apply Forall_filter_keep. }
    assert (Hcol : forall key, (forall r, finite_row r -> JS.is_finite (key r)) ->
                               sum (snd g) key = column_sum key (snd g)).
    { intros key Hkey. apply sum_column. now apply finite_rows_column. }
    cbv zeta.
    change (MarketEntry.market (market_with_ratios eg)) with (MarketGroup.market eg).
    change (MarketEntry.city (market_with_ratios eg)) with (MarketGroup.city eg).
    change (MarketEntry.state (market_with_ratios eg)) with (MarketGroup.state eg).
    change (MarketEntry.revenue (market_with_ratios eg)) with (MarketGroup.revenue eg) in *.
    change (MarketEntry.orders (market_with_ratios eg)) with (MarketGroup.orders eg) in *.
    change (MarketEntry.sessions (market_with_ratios eg)) with (MarketGroup.sessions eg) in *.
    change (MarketEntry.spend (market_with_ratios eg)) with (MarketGroup.spend eg) in *.
    rewrite Hk. unfold in_market. rewrite <- Hv.
    split; [|split; [|split; [|split; [|split; [|split]]]]].
    + rewrite Hc, Hst.
      assert (Hr1 : In r1 (snd g)) by (rewrite Hv1; now left).
      rewrite Hv in Hr1. apply filter_In in Hr1. destruct Hr1 as [_ E].
      apply String.eqb_eq in E. symmetry. exact E.
    + rewrite Hr. apply Hcol. unfold finite_row. tauto.
    + rewrite Ho. apply Hcol. unfold finite_row. tauto.
    + rewrite Hs. apply Hcol. unfold finite_row. tauto.
    + rewrite Hsp. rewrite !sum_d3_sum. now apply focus_spend_spec.
    + exact G1.
    + exact G2.
Qed.

(** The market entries of the sample records under a social focus. *)
Lemma byMarket_entries_sample :
  Forall finite_row sample_rows
  /\ exists m,
       derive sample_rows (Some "social"%string) = JS.Ok m
       /\ (forall r, In r sample_rows ->
             exists e, In e (Metrics.byMarket m) /\ MarketEntry.market e = market_key r).
Proof.
  assert (Hfin : Forall finite_row sample_rows).
  { repeat constructor; unfold finite_row; simpl; repeat split; eexists; reflexivity. }
  split; [exact Hfin|].
  destruct (byMarket_entries sample_rows (Some "social"%string) Hfin) as [m [Hm [Hcov _]]].
  exists m. split; assumption.
Defined.

Lemma sorted_app_dominates {A} (R : A -> A -> Prop) (l1 l2 : list A) :
  StronglySorted R (l1 ++ l2) -> forall a b, In a l1 -> In b l2 -> R a b.
Proof.
  induction l1 as [|x l1 IH]; simpl; intros Hs a b Ha Hb; [contradiction|].
  inversion Hs as [|? ? Hs' Hx]; subst. destruct Ha as [<- | Ha].
  - rewrite Forall_forall in Hx. apply Hx. apply in_or_app. now right.
  - now apply (IH Hs').
Qed.

Lemma In_firstn {A} (n : nat) (l : list A) (x : A) : In x (firstn n l) -> In x l.
Proof.
  intros H. rewrite <- (firstn_skipn n l). apply in_or_app. now left.
Qed.

(** X8: the markets table shows the first 50 market entries (none without
    data); its conversion rate, computed again from orders and sessions, is
    the CVR of the entry; and on validated records no market left out has a
    higher revenue than a market shown. *)
Theorem MarketsTable_top (rows : list Row) (cf : option string) :
  Forall finite_row rows ->
  exists m,
    derive rows cf = JS.Ok m
    /\ MarketsTable None = []
    /\ List.length (MarketsTable (Some (Metrics.byMarket m)))
       = Nat.min 50 (List.length (Metrics.byMarket m))
    /\ map (fun t => (MarketRow.city t, MarketRow.state t, MarketRow.revenue t,
                      MarketRow.roas t, MarketRow.conv_rate t, MarketRow.orders t,
                      MarketRow.spend t))
         (MarketsTable (Some (Metrics.byMarket m)))
       = map (fun e => (MarketEntry.city e, MarketEntry.state e, MarketEntry.revenue e,
                        MarketEntry.roas e, MarketEntry.cvr e, MarketEntry.orders e,
                        MarketEntry.spend e))
           (firstn 50 (Metrics.byMarket m))
    /\ (forall shown hidden,
          In shown (firstn 50 (Metrics.byMarket m)) ->
          In hidden (skipn 50 (Metrics.byMarket m)) ->
          num_le (MarketEntry.revenue hidden) (MarketEntry.revenue shown)).
Proof.
  intros Hfin. destruct (derive_eq rows cf) as [groups [HF H]].
  match type of H with _ = JS.Ok ?x => set (m := x) in * end.
  assert (Hsorted : StronglySorted
                      (fun a b => num_le (MarketEntry.revenue b) (MarketEntry.revenue a))
                      (Metrics.byMarket m)).
  { subst m. destruct rows as [|r0 rows0]; [constructor|].
    cbv beta iota. unfold Metrics.byMarket. apply sort_by_revenue_descending.
    exact (byMarket_finite_revenue _ cf groups Hfin HF). }
  exists m. split; [exact H|]. split; [reflexivity|].
  split; [unfold MarketsTable; rewrite length_map; apply length_firstn|].
  split.
  - unfold MarketsTable. cbv zeta. rewrite map_map. apply map_ext_in.
    intros e He. apply In_firstn in He.
    subst m. destruct rows as [|r0 rows0]; [contradiction|].
    cbv beta iota in He. unfold Metrics.byMarket in He.
    apply (Permutation_in _ (sort_perm _ _)) in He.
    apply in_map_iff in He. destruct He as [eg [<- _]]. reflexivity.
  - intros shown hidden Hs Hh.
    rewrite <- (firstn_skipn 50 (Metrics.byMarket m)) in Hsorted.
    exact (sorted_app_dominates _ _ _ Hsorted shown hidden Hs Hh).
Qed.

(** The markets table of the sample records. *)
Lemma MarketsTable_top_sample :
  Forall finite_row sample_rows
  /\ exists m,
       derive sample_rows None = JS.Ok m
       /\ List.length (MarketsTable (Some (Metrics.byMarket m)))
          = Nat.min 50 (List.length (Metrics.byMarket m)).
Proof.
  assert (Hfin : Forall finite_row sample_rows).
  { repeat constructor; unfold finite_row; simpl; repeat split; eexists; reflexivity. }
  split; [exact Hfin|].
  destruct (MarketsTable_top sample_rows None Hfin) as [m [Hm [_ [Hlen _]]]].
  exists m. split; assumption.
Defined.

(** ** Monthly buckets *)

(** X9: on validated records there is one bucket per calendar month of the
    input, keyed by the first of the month, in strictly ascending order, and
    a bucket carries the revenue, orders, sessions and spend (by channel
    focus) of the records of its month, with CVR and ROAS by the
    zero-denominator convention. *)
Theorem monthly_buckets (rows : list Row) (cf : option string) :
  Forall finite_row rows ->
  (forall r, In r rows ->
     exists b, In b (monthly rows cf) /\ Bucket.month b = monthKey (date r))
  /\ StronglySorted date_lt (map Bucket.month (monthly rows cf))
  /\ (forall b, In b (monthly rows cf) ->
        let v := in_month (Bucket.month b) rows in
        v <> []
        /\ getDate (Bucket.month b) = 1
        /\ Stats.revenue (Bucket.v b) = column_sum revenue v
        /\ Stats.orders (Bucket.v b) = column_sum online_orders v
        /\ Stats.sessions (Bucket.v b) = column_sum sessions v
        /\ spec_spend cf v (Stats.spend (Bucket.v b))
        /\ spec_ratio (Stats.orders (Bucket.v b)) (Stats.sessions (Bucket.v b))
             (Stats.cvr (Bucket.v b))
        /\ spec_ratio (Stats.revenue (Bucket.v b)) (Stats.spend (Bucket.v b))
             (Stats.roas (Bucket.v b))).
Proof.
  intros Hfin. split; [|split].
  - intros r Hr. eexists. split; [apply monthly_In; exists r; split; [exact Hr | reflexivity]|].
    reflexivity.
  - apply monthly_ascending.
  - intros b Hb. apply monthly_In in Hb. destruct Hb as [r [Hr ->]].
    cbv zeta. simpl Bucket.month. simpl Bucket.v.
    set (v := in_month (monthKey (date r)) rows).
    assert (Hv : Forall finite_row v) by (now apply Forall_filter_keep).
    assert (Hcol : forall key, (forall r, finite_row r -> JS.is_finite (key r)) ->
                               d3.sum v key = column_sum key v).
    { intros key Hkey. apply d3_sum_column. now apply finite_rows_column. }
    destruct (monthly_reduce_guarded cf v Hv) as [[G1 _] [G2 _]].
    split; [|split; [reflexivity | split; [|split; [|split; [|split; [|split]]]]]].
    + intros Hnil.
      assert (Hin : In r v).
      { unfold v, in_month. apply filter_In. split; [exact Hr|]. now apply date_eqb_spec. }
      rewrite Hnil in Hin. contradiction.
    + apply Hcol. unfold finite_row. tauto.
    + apply Hcol. unfold finite_row. tauto.
    + apply Hcol. unfold finite_row. tauto.
    + now apply focus_spend_spec.
    + exact G1.
    + exact G2.
Qed.

(** The buckets of the sample records. *)
Lemma monthly_buckets_sample :
  Forall finite_row sample_rows
  /\ StronglySorted date_lt (map Bucket.month (monthly sample_rows None)).
Proof.
  assert (Hfin : Forall finite_row sample_rows).
  { repeat constructor; unfold finite_row; simpl; repeat split; eexists; reflexivity. }
  split; [exact Hfin|].
  exact (proj1 (proj2 (monthly_buckets sample_rows None Hfin))).
Defined.

Lemma index_last_two_split {A} (l : list A) (c p : A) :
  JS.index l (Z.of_nat (List.length l) - 1) = Some c ->
  JS.index l (Z.of_nat (List.length l) - 2) = Some p ->
  exists l', l = l' ++ [p; c].
Proof.
  intros Hc Hp. destruct (index_last_split l c Hc) as [l1 ->].
  rewrite length_app in Hp. simpl List.length in Hp. unfold JS.index in Hp.
  destruct (Z.ltb_spec (Z.of_nat (List.length l1 + 1) - 2) 0); [discriminate|].
  replace (Z.to_nat (Z.of_nat (List.length l1 + 1) - 2))
    with (List.length l1 - 1)%nat in Hp by lia.
  rewrite nth_error_app1 in Hp by lia.
  destruct (nth_error_split l1 _ Hp) as [l0 [l2 [-> Hlen]]].
  rewrite length_app in Hlen. simpl in Hlen.
  destruct l2 as [|x l2]; [|simpl in Hlen; lia].
  exists l0. now rewrite <- app_assoc.
Qed.

(** X10: the payload compares the two latest months present in the data:
    the previous month is strictly before the current one, the current and
    previous revenue, orders, ROAS and CVR of the payload are those of the
    buckets of these two months, and no bucket lies between them, whether or
    not they are adjacent in the calendar. *)
Theorem insights_latest_two (rows : list Row) (cf : option string) (i : Insights.t) :
  buildInsights rows cf = JS.Ok (Some i) ->
  date_lt (Labels.prevLabel (Insights.labels i)) (Labels.currLabel (Insights.labels i))
  /\ (exists bc bp,
        In bc (monthly rows cf) /\ In bp (monthly rows cf)
        /\ Bucket.month bc = Labels.currLabel (Insights.labels i)
        /\ Bucket.month bp = Labels.prevLabel (Insights.labels i)
        /\ card_shows (Insights.curr i) (Bucket.v bc)
        /\ card_shows (Insights.prev i) (Bucket.v bp))
  /\ (forall b, In b (monthly rows cf) ->
        Bucket.month b = Labels.currLabel (Insights.labels i)
        \/ Bucket.month b = Labels.prevLabel (Insights.labels i)
        \/ date_lt (Bucket.month b) (Labels.prevLabel (Insights.labels i))).
Proof.
  intros Hi.
  destruct (Nat.lt_ge_cases (List.length (monthly rows cf)) 2) as [Hlt | Hge].
  { rewrite (buildInsights_few rows cf Hlt) in Hi. discriminate. }
  destruct (buildInsights_enough rows cf Hge) as [curr [prev [msg [top [Hc [Hp [_ [_ E]]]]]]]].
  rewrite E in Hi. injection Hi as <-. simpl.
  destruct (index_last_two_split _ _ _ Hc Hp) as [l' Hl'].
  pose proof (monthly_ascending rows cf) as Hs. rewrite Hl' in Hs |- *.
  rewrite map_app in Hs. simpl in Hs.
  assert (Hs2 : StronglySorted date_lt [Bucket.month prev; Bucket.month curr]).
  { clear -Hs. induction (map Bucket.month l') as [|x l IH]; simpl in *; [exact Hs|].
    inversion Hs; subst. now apply IH. }
  split; [|split].
  - inversion Hs2 as [|? ? _ Hf]; subst. now inversion Hf.
  - exists curr, prev. unfold card_shows.
    repeat split; try reflexivity; apply in_or_app; right; simpl; auto.
  - intros b Hb. apply in_app_or in Hb. destruct Hb as [Hb | [<- | [<- | []]]]; auto.
    right. right.
    apply (sorted_app_dominates _ _ _ Hs); [now apply in_map | now left].
Qed.

(** ** The narratives *)

Lemma insert_sorted_map {A B} (f : A -> B) (cmpA : A -> A -> Z) (cmpB : B -> B -> Z)
    (x : A) (l : list A) :
  (forall a b, cmpB (f a) (f b) = cmpA a b) ->
  JS.insert_sorted cmpB (f x) (map f l) = map f (JS.insert_sorted cmpA x l).
Proof.
  intros H. induction l as [|y l IH]; simpl; [reflexivity|].
  rewrite H. destruct (cmpA x y >? 0); simpl; [now rewrite IH | reflexivity].
Qed.

Lemma sort_map {A B} (f : A -> B) (cmpA : A -> A -> Z) (cmpB : B -> B -> Z) (l : list A) :
  (forall a b, cmpB (f a) (f b) = cmpA a b) ->
  JS.sort cmpB (map f l) = map f (JS.sort cmpA l).
Proof.
  intros H. unfold JS.sort. induction l as [|x l IH]; simpl; [reflexivity|].
  rewrite IH. now apply insert_sorted_map.
Qed.

Lemma index_map {A B} (f : A -> B) (l : list A) (i : Z) :
  JS.index (map f l) i = option_map f (JS.index l i).
Proof.
  unfold JS.index. destruct (i <? 0); [reflexivity|]. apply nth_error_map.
Qed.

Lemma monthly_as_groups (rows : list Row) (cf : option string) :
  monthly rows cf
  = map (fun kv => Bucket.mk (fst kv) (monthly_reduce cf (snd kv))) (month_groups rows).
Proof.
  unfold monthly, month_groups, d3.rollups. rewrite map_map.
  now apply sort_map.
Qed.

Lemma channel_series_as_groups (rows : list Row) (ch : string) :
  channel_series rows ch = map (channel_month ch) (month_groups rows).
Proof.
  unfold channel_series, month_groups, d3.rollups. rewrite map_map.
  now apply sort_map.
Qed.


Lemma index_In {A} (l : list A) (i : Z) (x : A) : JS.index l i = Some x -> In x l.
Proof.
  unfold JS.index. destruct (i <? 0); [discriminate|]. apply nth_error_In.
Qed.

(** The deltas of a channel are those of its last two monthly entries. *)
Lemma channel_stat_deltas (rows : list Row) (cf : option string) (ch : string)
    (curr prev : Bucket.t) :
  JS.index (monthly rows cf) (Z.of_nat (List.length (monthly rows cf)) - 1) = Some curr ->
  JS.index (monthly rows cf) (Z.of_nat (List.length (monthly rows cf)) - 2) = Some prev ->
  exists kc kp,
    In kc (month_groups rows) /\ In kp (month_groups rows)
    /\ curr = Bucket.mk (fst kc) (monthly_reduce cf (snd kc))
    /\ prev = Bucket.mk (fst kp) (monthly_reduce cf (snd kp))
    /\ channel_stat rows ch
       = ChannelStat.mk ch
           (delta (ChannelMonth.roas (channel_month ch kc))
              (ChannelMonth.roas (channel_month ch kp)))
           (delta (ChannelMonth.revenue (channel_month ch kc))
              (ChannelMonth.revenue (channel_month ch kp)))
           (delta (ChannelMonth.cvr (channel_month ch kc))
              (ChannelMonth.cvr (channel_month ch kp))).
Proof.
  rewrite monthly_as_groups, !length_map, !index_map. intros Hc Hp.
  destruct (JS.index (month_groups rows) (Z.of_nat (List.length (month_groups rows)) - 1))
    as [kc|] eqn:Ec; [|discriminate].
  destruct (JS.index (month_groups rows) (Z.of_nat (List.length (month_groups rows)) - 2))
    as [kp|] eqn:Ep; [|discriminate].
  simpl in Hc, Hp. injection Hc as <-. injection Hp as <-.
  exists kc, kp.
  split; [now apply (index_In _ _ _ Ec)|]. split; [now apply (index_In _ _ _ Ep)|].
  split; [reflexivity|]. split; [reflexivity|].
  unfold channel_stat. rewrite channel_series_as_groups, !length_map, !index_map.
  rewrite Ec, Ep. reflexivity.
Qed.

(** X11: the revenue and CVR deltas of the per-channel statistics do not
    depend on the channel: for every channel they are the deltas of the
    Revenue and CVR cards; and when a channel is focused, its ROAS delta is
    the delta of the ROAS card. *)
Theorem channel_stats_match_cards (rows : list Row) (cf : option string)
    (i : Insights.t) :
  buildInsights rows cf = JS.Ok (Some i) ->
  (forall ch,
     ChannelStat.dRev (channel_stat rows ch)
     = delta (Card.revenue (Insights.curr i)) (Card.revenue (Insights.prev i))
     /\ ChannelStat.dCvr (channel_stat rows ch)
        = delta (Card.cvr (Insights.curr i)) (Card.cvr (Insights.prev i)))
  /\ (forall ch, In ch channels -> cf = Some ch ->
        ChannelStat.dRoas (channel_stat rows ch)
        = delta (Card.roas (Insights.curr i)) (Card.roas (Insights.prev i))).
Proof.
  intros Hi.
  destruct (Nat.lt_ge_cases (List.length (monthly rows cf)) 2) as [Hlt | Hge].
  { rewrite (buildInsights_few rows cf Hlt) in Hi. discriminate. }
  destruct (buildInsights_enough rows cf Hge) as [curr [prev [msg [top [Hc [Hp [_ [_ E]]]]]]]].
  rewrite E in Hi. injection Hi as <-. simpl Insights.curr. simpl Insights.prev.
  split.
  - intros ch.
    destruct (channel_stat_deltas rows cf ch curr prev Hc Hp)
      as [kc [kp [_ [_ [-> [-> ->]]]]]].
    split; reflexivity.
  - intros ch Hch ->.
    destruct (channel_stat_deltas rows (Some ch) ch curr prev Hc Hp)
      as [kc [kp [_ [_ [-> [-> ->]]]]]].
    destruct Hch as [<- | [<- | [<- | []]]]; reflexivity.
Qed.










(** Three months of records: February 2024, with a revenue of 1500 from 25
    orders, is compared with January 2024, with 1000 from 20 orders. *)
Lemma insights_latest_two_sample :
  exists i,
    buildInsights yoy_rows None = JS.Ok (Some i)
    /\ date_lt (Labels.prevLabel (Insights.labels i)) (Labels.currLabel (Insights.labels i))
    /\ Labels.currLabel (Insights.labels i) = mkDate 2024 1 1
    /\ Labels.prevLabel (Insights.labels i) = mkDate 2024 0 1
    /\ Card.revenue (Insights.curr i) = JS.of_Z 1500
    /\ Card.orders (Insights.curr i) = JS.of_Z 25
    /\ Card.roas (Insights.curr i) = JS.of_Z 10
    /\ Card.cvr (Insights.curr i) = JS.div (JS.of_Z 1) (JS.of_Z 24)
    /\ Card.revenue (Insights.prev i) = JS.of_Z 1000
    /\ Card.orders (Insights.prev i) = JS.of_Z 20
    /\ Card.roas (Insights.prev i) = JS.of_Z 10
    /\ Card.cvr (Insights.prev i) = JS.div (JS.of_Z 1) (JS.of_Z 25).
Proof.
  destruct (buildInsights yoy_rows None) as [[i|]|] eqn:E.
  - exists i. split; [reflexivity|].
    split; [exact (proj1 (insights_latest_two yoy_rows None i E))|].
    vm_compute in E. injection E as <-.
    repeat split; vm_compute;
      first [reflexivity | f_equal; apply Qc_is_canon; reflexivity].
  - vm_compute in E. discriminate E.
  - vm_compute in E. discriminate E.
Defined.

(** The sample records under a social focus. *)
Lemma channel_stats_match_cards_sample :
  exists i,
    buildInsights sample_rows (Some "social"%string) = JS.Ok (Some i)
    /\ ChannelStat.dRoas (channel_stat sample_rows "social")
       = delta (Card.roas (Insights.curr i)) (Card.roas (Insights.prev i)).
Proof.
  destruct (buildInsights sample_rows (Some "social"%string)) as [[i|]|] eqn:E.
  - exists i. split; [reflexivity|].
    apply (proj2 (channel_stats_match_cards sample_rows (Some "social"%string) i E)
             "social"%string); [now left | reflexivity].
  - vm_compute in E. discriminate E.
  - vm_compute in E. discriminate E.
Defined.



(** ** Composition with the filter *)

Lemma between_same_month (s d e : Date) :
  date_le s d -> date_le d e -> same_month s e -> same_month d s.
Proof.
  unfold date_le, date_lt, same_month.
  intros [H1 | <-] [H2 | <-] [Hy Hm]; lia.
Qed.

(** X14: a date range inside one calendar month leaves too little for the
    insights: the panel shows its placeholder, whatever the data. *)
Theorem single_month_range_placeholder (rows : list Row) (st : FilterState) (s e : Date) :
  wf_dates rows ->
  startDate st = Some s ->
  endDate st = Some e ->
  same_month s e ->
  insights rows st = JS.Ok (EmptyChart "Not enough data for insights").
Proof.
  intros Hwf Hs He Hse. unfold insights, InsightsPanel.
  set (fr := rowsFiltered rows st).
  assert (Hwf' : wf_dates fr) by (now apply Forall_filter_keep).
  assert (Hone : within_one_month fr).
  { assert (Hm : forall r, In r fr -> same_month (date r) s).
    { intros r Hr. unfold fr, rowsFiltered in Hr. apply filter_In in Hr.
      destruct Hr as [_ Hk]. cbv zeta in Hk. apply rowsFiltered_keep in Hk.
      unfold passes in Hk. rewrite Hs, He in Hk. destruct Hk as [H1 [H2 _]].
      now apply (between_same_month s (date r) e). }
    intros r1 r2 H1 H2. destruct (Hm r1 H1) as [Y1 M1]. destruct (Hm r2 H2) as [Y2 M2].
    split; congruence. }
  apply (monthly_few_iff fr (channelFocus st) Hwf') in Hone.
  now rewrite (buildInsights_few fr (channelFocus st) Hone).
Qed.

(** February 2024 selected on the sample records. *)
Lemma single_month_range_placeholder_sample :
  wf_dates sample_rows
  /\ insights sample_rows
       (mkFilterState (Some (mkDate 2024 1 1)) (Some (mkDate 2024 1 29)) "All" "All")
     = JS.Ok (EmptyChart "Not enough data for insights").
Proof.
  assert (Hwf : wf_dates sample_rows).
  { repeat constructor; simpl; lia. }
  split; [exact Hwf|].
  apply (single_month_range_placeholder sample_rows _ (mkDate 2024 1 1) (mkDate 2024 1 29) Hwf);
    [reflexivity | reflexivity | split; reflexivity].
Defined.

(** ** Charts *)

(** X15: the tooltip of the revenue chart always has a point to show: any
    bisector index is clamped into the data, an index before the start
    gives the first point, one past the end the last point. *)
Theorem hover_point_defined (data : list DatePoint.t) (idx : Z) :
  data <> [] ->
  (exists d, hover_point data idx = Some d /\ In d data)
  /\ (idx <= 0 -> hover_point data idx = JS.index data 0)
  /\ (Z.of_nat (List.length data) - 1 <= idx ->
      hover_point data idx = JS.index data (Z.of_nat (List.length data) - 1))
  /\ (0 <= idx <= Z.of_nat (List.length data) - 1 ->
      hover_point data idx = JS.index data idx).
Proof.
  intros Hne.
  assert (Hlen : (1 <= List.length data)%nat).
  { destruct data; [contradiction | simpl; lia]. }
  unfold hover_point. split; [|split; [|split]].
  - set (k := Z.max 0 (Z.min (Z.of_nat (List.length data) - 1) idx)).
    assert (Hk : 0 <= k <= Z.of_nat (List.length data) - 1) by (unfold k; lia).
    unfold JS.index. destruct (Z.ltb_spec k 0); [lia|].
    destruct (nth_error data (Z.to_nat k)) as [d|] eqn:E.
    + exists d. split; [reflexivity|]. eapply nth_error_In. exact E.
    + apply nth_error_None in E. lia.
  - intros H. f_equal. lia.
  - intros H. f_equal. lia.
  - intros H. f_equal. lia.
Qed.

(** The time series of one record. *)
Lemma hover_point_defined_sample :
  exists d,
    hover_point [DatePoint.mk (mkDate 2024 0 1) JS.zero JS.zero JS.zero] 7 = Some d.
Proof.
  destruct (proj1 (hover_point_defined
                     [DatePoint.mk (mkDate 2024 0 1) JS.zero JS.zero JS.zero] 7
                     ltac:(discriminate))) as [d [Hd _]].
  now exists d.
Defined.

(** X16: the channel chart of the dashboard draws the three channels in the
    order social, search, display when records pass the filter and shows its
    placeholder otherwise; with a channel selected only that bar keeps the
    full colour, with "All" every bar does. *)
Theorem focused_bar_highlighted (rows : list Row) (st : FilterState) (m : Metrics.t) :
  In (selectedChannel st) channel_options ->
  metrics rows st = JS.Ok m ->
  match rowsFiltered rows st with
  | [] => ROASByChannel (Metrics.channelArr m) (channelFocus st) = None
  | _ :: _ =>
      exists bars,
        ROASByChannel (Metrics.channelArr m) (channelFocus st) = Some bars
        /\ map (fun b => fst (fst b)) bars = channels
        /\ forall b, In b bars ->
             (snd b = "#2a9d8f"%string
              <-> (selectedChannel st = "All"%string \/ fst (fst b) = selectedChannel st))
             /\ (snd b = "#d9e9e6"%string
                 <-> (selectedChannel st <> "All"%string
                      /\ fst (fst b) <> selectedChannel st))
  end.
Proof.
  intros Hsel Hm. unfold metrics in Hm.
  destruct (derive_eq (rowsFiltered rows st) (channelFocus st)) as [groups [_ H]].
  rewrite H in Hm. injection Hm as <-.
  destruct (rowsFiltered rows st) as [|r0 fr0]; [reflexivity|].
  cbv beta iota. unfold Metrics.channelArr, derive_channelArr, derive_channel.
  simpl map. unfold ROASByChannel. eexists. split; [reflexivity|].
  split; [reflexivity|].
  unfold channelFocus. destruct st as [sd ed mk ch]. simpl selectedChannel in *.
  intros b Hb.
  destruct Hsel as [<- | [<- | [<- | [<- | []]]]];
    simpl in Hb; destruct Hb as [<- | [<- | [<- | []]]]; simpl;
    (split;
     (split; [intros H0; try discriminate H0; auto; try (split; discriminate)
             | intros H0; try reflexivity;
               try (destruct H0 as [H0 | H0]; discriminate H0);
               try (destruct H0 as [H0 H1]; exfalso; auto)])).
Qed.

(** Selecting the search channel on the sample records. *)
Lemma focused_bar_highlighted_sample :
  exists m bars,
    metrics sample_rows (mkFilterState None None "All" "search") = JS.Ok m
    /\ ROASByChannel (Metrics.channelArr m) (Some "search"%string) = Some bars
    /\ map (fun b => fst (fst b)) bars = channels.
Proof.
  destruct (metrics sample_rows (mkFilterState None None "All" "search")) as [m|] eqn:E.
  - pose proof (focused_bar_highlighted sample_rows
                  (mkFilterState None None "All" "search") m
                  ltac:(simpl; auto) E) as H.
    simpl in H. destruct H as [bars [Hb [Hc _]]].
    exists m, bars. repeat split; assumption.
  - vm_compute in E. discriminate E.
Defined.

(** ** The first version of the dashboard *)

Lemma Qcinv_nonneg (x : Qc) : (0 <= x)%Qc -> (0 <= / x)%Qc.
Proof.
  intros H. unfold Qcle in *. unfold Qcinv. simpl.
  rewrite Qred_correct. now apply Qinv_le_0_compat.
Qed.

Lemma Qc_share (w s : Qc) :
  (0 <= w)%Qc -> (w <= s)%Qc -> s <> 0%Qc -> (0 <= w / s)%Qc /\ (w / s <= 1)%Qc.
Proof.
  intros Hw Hws Hs.
  assert (H0 : (0 <= / s)%Qc).
  { apply Qcinv_nonneg. now apply Qcle_trans with w. }
  unfold Qcdiv. split.
  - replace 0%Qc with (0 * / s)%Qc by ring. now apply Qcmult_le_compat_r.
  - rewrite <- (Qcmult_inv_r s Hs). now apply Qcmult_le_compat_r.
Qed.

Lemma share_sums (arr : list Row) :
  Forall share_row arr ->
  exists s w,
    sum arr sessions = JS.Fin s
    /\ d3.sum arr (fun d => JSMath.mul (JS.or_else (sessions d) JS.zero)
                              (JS.or_else (bounce_rate d) JS.zero)) = JS.Fin w
    /\ (0 <= w)%Qc /\ (w <= s)%Qc.
Proof.
  unfold sum. rewrite !d3_sum_total.
  induction 1 as [|r arr [s [b [Hs [Hb [Hs0 [Hb0 Hb1]]]]]] _ [S [W [HS [HW [HW0 HWS]]]]]].
  - exists 0%Qc, 0%Qc. repeat split; apply Qcle_refl.
  - simpl map. rewrite !total_cons, HS, HW, Hs, Hb.
    rewrite !(or_else_zero_finite (JS.Fin s)) by now eexists.
    rewrite (or_else_zero_finite (JS.Fin b)) by now eexists.
    simpl JSMath.mul. rewrite (or_else_zero_finite (JS.Fin (s * b))) by now eexists.
    exists (s + S)%Qc, (s * b + W)%Qc. simpl. repeat split.
    + replace 0%Qc with (0 + 0)%Qc by ring. apply Qcplus_le_compat; [|assumption].
      replace 0%Qc with (0 * b)%Qc by ring. now apply Qcmult_le_compat_r.
    + apply Qcplus_le_compat; [|assumption].
      replace s with (1 * s)%Qc at 2 by ring. rewrite (Qcmult_comm s b).
      now apply Qcmult_le_compat_r.
Qed.

(** X17: over records whose sessions are non-negative counts and whose
    bounce rates lie between 0 and 1, and whose sessions add up to a finite
    number, the weighted bounce rate is a share between 0 and 1, and it is 0
    when there are no sessions at all. *)
Theorem weightedBounceRate_share (arr : list Row) :
  Forall share_row arr ->
  JS.is_finite (sum arr sessions) ->
  exists br,
    weightedBounceRate arr = JS.Fin br
    /\ (0 <= br)%Qc /\ (br <= 1)%Qc
    /\ (sum arr sessions = JS.zero -> br = 0%Qc).
Proof.
  intros H _. destruct (share_sums arr H) as [s [w [Hs [Hw [Hw0 Hws]]]]].
  unfold weightedBounceRate. cbv zeta. rewrite Hs, Hw. unfold ratio.
  destruct (JS.truthy (JS.Fin s)) eqn:Et.
  - assert (Hne : s <> 0%Qc).
    { intros ->. now rewrite (proj2 (truthy_Fin 0%Qc) eq_refl) in Et. }
    assert (Hz : JS.is_zero s = false).
    { simpl in Et. now apply negb_true_iff in Et. }
    simpl. rewrite Hz. exists (w / s)%Qc.
    destruct (Qc_share w s Hw0 Hws Hne) as [H0 H1].
    repeat split; try assumption.
    intros Hzero. unfold JS.zero in Hzero. injection Hzero as Hzero. contradiction.
  - exists 0%Qc. repeat split; try reflexivity; try apply Qcle_refl.
    discriminate.
Qed.

(** The hypothesis on the sum of the sessions is needed: in double precision
    two records of 1e308 sessions, all bouncing, have an infinite session
    count and a weighted bounce rate of [Infinity / Infinity]. *)
Lemma weightedBounceRate_overflow :
  PrimFloat.is_finite (IEEE.sum IEEE.crowd_rows IEEE.sessions) = false
  /\ PrimFloat.is_nan (IEEE.weightedBounceRate IEEE.crowd_rows) = true.
Proof. split; vm_compute; reflexivity. Qed.

(** 200 of 500 and 300 of 600 sessions bounce: 5/11 of all sessions. *)
Lemma weightedBounceRate_share_sample :
  Forall share_row bounce_rows
  /\ JS.is_finite (sum bounce_rows sessions)
  /\ weightedBounceRate bounce_rows = JS.div (JS.of_Z 5) (JS.of_Z 11)
  /\ exists br, weightedBounceRate bounce_rows = JS.Fin br /\ (0 <= br)%Qc /\ (br <= 1)%Qc.
Proof.
  assert (H : Forall share_row bounce_rows).
  { repeat constructor; (eexists; eexists; split; [reflexivity|]; split; [reflexivity|]);
      repeat split; discriminate. }
  assert (Hs : JS.is_finite (sum bounce_rows sessions)).
  { eexists. reflexivity. }
  split; [exact H|]. split; [exact Hs|].
  split; [vm_compute; f_equal; apply Qc_is_canon; reflexivity|].
  destruct (weightedBounceRate_share bounce_rows H Hs) as [br [E [H0 [H1 _]]]].
  exists br. repeat split; assumption.
Defined.

Lemma derived_byMarket_eq (rows : list Row) :
  derived_byMarket rows = derive_byMarket rows None.
Proof. reflexivity. Qed.

Lemma derived_byDate_figures (rows : list Row) :
  map DatePointV1_figures (derived_byDate rows)
  = map DatePoint_figures (derive_byDate rows None).
Proof.
  unfold derived_byDate, derive_byDate, byDate_rollups.
  set (cmp := fun a b : Date * JS.num * JS.num => date_minus (fst (fst a)) (fst (fst b))).
  rewrite <- (sort_map DatePointV1_figures
                (fun a b => date_minus (DatePointV1.date a) (DatePointV1.date b)) cmp)
    by reflexivity.
  rewrite <- (sort_map DatePoint_figures
                (fun a b => date_minus (DatePoint.date a) (DatePoint.date b)) cmp)
    by reflexivity.
  f_equal. unfold d3.rollups. rewrite !map_map. apply map_ext. intros kv. reflexivity.
Qed.

(** X18: without a channel focus the second version of the dashboard
    computes what the first computed: the same totals and ratios, the same
    market breakdown, the same channel figures (the second adds a ROAS to
    each), and per date the same dates, revenue and orders in the same
    order.  The per-date ROAS is left out: the first version adds the spend
    record by record, the second column by column. *)
Theorem derived_matches_derive (rows : list Row) (m : Metrics.t) :
  rows <> [] ->
  derive rows None = JS.Ok m ->
  exists d,
    derived rows = JS.Ok (Some d)
    /\ Derived.totalRevenue d = Metrics.totalRevenue m
    /\ Derived.totalOrders d = Metrics.totalOrders m
    /\ Derived.totalSessions d = Metrics.totalSessions m
    /\ Derived.aov d = Metrics.aov m
    /\ Derived.cvr d = Metrics.cvr m
    /\ Derived.roas d = Metrics.roas m
    /\ Derived.byMarket d = Metrics.byMarket m
    /\ Derived.channelArr d = map ChannelEntry_core (Metrics.channelArr m)
    /\ map DatePointV1_figures (Derived.byDate d)
       = map DatePoint_figures (Metrics.byDate m).
Proof.
  intros Hne Hm. destruct rows as [|r0 rows0]; [contradiction|].
  set (rows := r0 :: rows0) in *.
  unfold derive in Hm. unfold derived. fold rows in Hm |- *.
  change (match rows with [] => ?a | _ :: _ => ?b end) with b in Hm.
  cbv zeta in Hm. rewrite derived_byMarket_eq. cbv zeta.
  destruct (derive_byMarket rows None) as [bm|]; [|discriminate Hm].
  cbn [JS.bind] in Hm |- *. injection Hm as <-.
  eexists. split; [reflexivity|]. cbn [Derived.totalRevenue Derived.totalOrders
    Derived.totalSessions Derived.aov Derived.cvr Derived.roas Derived.byMarket
    Derived.channelArr Derived.byDate Metrics.totalRevenue Metrics.totalOrders
    Metrics.totalSessions Metrics.aov Metrics.cvr Metrics.roas Metrics.byMarket
    Metrics.channelArr Metrics.byDate].
  repeat (split; [reflexivity|]).
  apply derived_byDate_figures.
Qed.

(** The sample records: 1000 on 1 January and 2200 on 1 February 2024. *)
Lemma derived_matches_derive_sample :
  exists m d,
    derive sample_rows None = JS.Ok m
    /\ derived sample_rows = JS.Ok (Some d)
    /\ map DatePointV1_figures (Derived.byDate d) = map DatePoint_figures (Metrics.byDate m)
    /\ map DatePoint.revenue (Metrics.byDate m) = [JS.of_Z 1000; JS.of_Z 2200].
Proof.
  destruct (derive sample_rows None) as [m|] eqn:E.
  - destruct (derived_matches_derive sample_rows m ltac:(discriminate) E)
      as [d [Hd H]].
    exists m, d. split; [reflexivity|]. split; [exact Hd|]. split; [apply H|].
    vm_compute in E. injection E as <-. vm_compute.
    repeat (f_equal; try (apply Qc_is_canon; reflexivity)).
  - vm_compute in E. discriminate E.
Defined.

(** ** The cards *)





(** ** Sums and months *)

(** X20: the helper [sum] adds a column over the records where it holds a
    truthy number: records whose field is 0 or NaN contribute nothing. *)
Theorem sum_skips_falsy (arr : list Row) (key : Row -> JS.num) :
  sum arr key = column_sum key (filter (fun d => JS.truthy (key d)) arr).
Proof.
  rewrite sum_d3_sum, d3_sum_total. unfold column_sum.
  induction arr as [|r arr IH]; [reflexivity|].
  simpl map. simpl filter. rewrite total_cons, IH. unfold JS.or_else.
  destruct (JS.truthy (key r)).
  - simpl map. now rewrite total_cons.
  - apply add_zero_l.
Qed.

(** X21: when the day of month exists in the target month, [addMonths]
    gives the first day of the month [n] months away, and going back by
    the same [n] gives the first day of the starting month. *)
Theorem addMonths_round_trip (d : Date) (n : Z) :
  wf_date d ->
  getFullYear d + (getMonth d + n) / 12 < 0 \/ 99 < getFullYear d + (getMonth d + n) / 12 ->
  getDate d <= days_in_month (getFullYear d + (getMonth d + n) / 12)
                 ((getMonth d + n) mod 12) ->
  addMonths d n
  = mkDate (getFullYear d + (getMonth d + n) / 12) ((getMonth d + n) mod 12) 1
  /\ addMonths (addMonths d n) (- n) = monthKey d.
Proof.
  intros Hwf Hy Hday. pose proof Hwf as [Hy0 [Hm0 Hd0]].
  assert (Hmod : 0 <= (getMonth d + n) mod 12 < 12) by (apply Z.mod_pos_bound; lia).
  assert (E : addMonths d n
              = mkDate (getFullYear d + (getMonth d + n) / 12) ((getMonth d + n) mod 12) 1).
  { unfold addMonths, setMonth. cbv zeta.
    destruct (Z.gtb_spec (getDate d)
                (days_in_month (getFullYear d + (getMonth d + n) / 12)
                   ((getMonth d + n) mod 12))) as [Hgt|_]; [lia|].
    simpl. apply newDate_plain; lia. }
  split; [exact E|]. rewrite E, (monthKey_wf d Hwf).
  unfold addMonths, setMonth. cbv zeta. simpl getFullYear. simpl getMonth. simpl getDate.
  assert (Hq : ((getMonth d + n) mod 12 + - n) / 12 = - ((getMonth d + n) / 12)).
  { symmetry. apply (Z.div_unique _ 12 _ (getMonth d)); [lia|].
    pose proof (Z.div_mod (getMonth d + n) 12 ltac:(lia)). lia. }
  assert (Hr : ((getMonth d + n) mod 12 + - n) mod 12 = getMonth d).
  { symmetry. apply (Z.mod_unique _ 12 (- ((getMonth d + n) / 12))); [lia|].
    pose proof (Z.div_mod (getMonth d + n) 12 ltac:(lia)). lia. }
  rewrite Hq, Hr.
  replace (getFullYear d + (getMonth d + n) / 12 + - ((getMonth d + n) / 12))
    with (getFullYear d) by lia.
  pose proof (days_in_month_lower (getFullYear d) (getMonth d)) as Hlow.
  destruct (Z.gtb_spec 1 (days_in_month (getFullYear d) (getMonth d))) as [Hgt|_]; [lia|].
  simpl. apply newDate_plain; lia.
Qed.

(** One month after 31 January 2024 would be 31 February; eleven months on
    is 31 December. *)
Lemma addMonths_round_trip_sample :
  addMonths (mkDate 2024 0 31) 11 = mkDate 2024 11 1
  /\ addMonths (addMonths (mkDate 2024 0 31) 11) (- 11) = monthKey (mkDate 2024 0 31).
Proof.
  apply (addMonths_round_trip (mkDate 2024 0 31) 11); simpl.
  - repeat split; simpl; lia.
  - right. reflexivity.
  - discriminate.
Defined.
